(** * Senior News Daily: the client-side customizer (site/custom-features.js)

    A shallow embedding of class [SeniorNewsCustomizer]: the two persisted
    registries (custom feeds, deleted articles), their load/save discipline
    around [localStorage], and the controller methods that validate input,
    refresh the count badges and export the feed listing.

    JavaScript strings are sequences of UTF-16 code units; they are modelled
    as [list Z] so that [String.prototype.trim], [JSON.parse] and
    [JSON.stringify] can be written out code unit by code unit. *)

From Stdlib Require Import ZArith String Ascii List Bool Lia.
From stdpp Require Import gmap list fin_maps.
Import ListNotations.

Local Open Scope Z_scope.

(** ** JavaScript strings *)

Abbreviation jsstring := (list Z).

(** The code unit of an ASCII character, and an ASCII literal of the source
    as code units. *)
Definition ch (a : ascii) : Z := Z.of_nat (nat_of_ascii a).

Definition js (s : string) : jsstring := List.map ch (list_ascii_of_string s).

Definition jsstring_eqb (a b : jsstring) : bool := bool_decide (a = b).

(** ** Completions: a call either returns or throws *)

Inductive JsError := SyntaxError | TypeError.

Inductive completion (A : Type) :=
| Normal (a : A)
| Throw (e : JsError).
Arguments Normal {A} a.
Arguments Throw {A} e.

(** A script reads and changes a state and then returns or throws; what it
    changed before throwing stays changed. *)
Definition Script (S A : Type) : Type := S -> completion A * S.

#[global] Instance Script_ret {S : Type} : MRet (Script S) :=
  fun A a s => (Normal a, s).

#[global] Instance Script_bind {S : Type} : MBind (Script S) :=
  fun A B k m s =>
    match m s with
    | (Normal a, s') => k a s'
    | (Throw e, s') => (Throw e, s')
    end.

Definition lift_completion {S A : Type} (c : completion A) : Script S A :=
  fun s => (c, s).

(** [try { body } catch (e) { handler(e) }] *)
Definition try_catch {S A : Type} (body : Script S A) (handler : JsError -> Script S A)
  : Script S A :=
  fun s =>
    match body s with
    | (Normal a, s') => (Normal a, s')
    | (Throw e, s') => handler e s'
    end.

(** ** JSON values *)

(** A JSON number is kept as the decimal it was written as,
    [(-1)^neg * mantissa * 10^exp10]; the Number it denotes is the nearest
    IEEE-754 double. *)
Record JsNum := mkNum { num_neg : bool; num_mantissa : Z; num_exp10 : Z }.

#[local] Set Warnings "-register-all".

Inductive JsValue :=
| JNull
| JBool (b : bool)
| JNum (n : JsNum)
| JStr (s : jsstring)
| JArr (elems : list JsValue)
| JObj (members : list (jsstring * JsValue)).

(** A double rounds to zero exactly when its magnitude is at most 2^-1075
    (half the least subnormal, ties to even): m * 10^e <= 5^1075 * 10^-1075. *)
Definition num_is_zero (n : JsNum) : bool :=
  let m := num_mantissa n in
  let e := num_exp10 n + 1075 in
  if m =? 0 then true
  else if 0 <=? e then m * 10 ^ e <=? 5 ^ 1075
  else m <=? 5 ^ 1075 * 10 ^ (- e).

(** ToBoolean: [null], [false], [0] and the empty string are falsy. *)
Definition truthy (v : JsValue) : bool :=
  match v with
  | JNull => false
  | JBool b => b
  | JNum n => negb (num_is_zero n)
  | JStr s => match s with [] => false | _ => true end
  | JArr _ | JObj _ => true
  end.

(** [a || b] *)
Definition js_or (a b : JsValue) : JsValue := if truthy a then a else b.

(** ** JSON.parse

    The host's [JSON.parse], written as the two automata of the JSON grammar
    (ECMA-262, 25.5.1): a lexer that reads one code unit at a time and a
    parser that keeps the suspended containers on a stack.  Both are folds
    over the text, so parsing is total. *)

Definition is_json_ws (c : Z) : bool :=
  (c =? 32) || (c =? 9) || (c =? 10) || (c =? 13).

Definition is_digit (c : Z) : bool := (48 <=? c) && (c <=? 57).

Definition hex_value (c : Z) : option Z :=
  if (48 <=? c) && (c <=? 57) then Some (c - 48)
  else if (97 <=? c) && (c <=? 102) then Some (c - 87)
  else if (65 <=? c) && (c <=? 70) then Some (c - 55)
  else None.

(** Code units that can occur inside a number: digits, [+ - . e E]. *)
Definition is_number_char (c : Z) : bool :=
  is_digit c || (c =? ch "+") || (c =? ch "-") || (c =? ch ".")
  || (c =? ch "e") || (c =? ch "E").

Inductive Token :=
| TLBrace | TRBrace | TLBracket | TRBracket | TColon | TComma
| TLit (v : JsValue).

(** *** Numbers: an optional minus, an integer part without leading zeros,
    an optional fraction and an optional exponent *)

Fixpoint take_digits (s : jsstring) : jsstring * jsstring :=
  match s with
  | c :: r =>
      if is_digit c then let '(ds, rest) := take_digits r in (c :: ds, rest)
      else ([], s)
  | [] => ([], [])
  end.

Definition digits_value (ds : jsstring) : Z :=
  fold_left (fun acc d => acc * 10 + (d - 48)) ds 0.

Definition parse_number (s : jsstring) : option JsNum :=
  let '(neg, s1) :=
    match s with
    | c :: r => if c =? ch "-" then (true, r) else (false, s)
    | [] => (false, s)
    end in
  let '(ip, s2) := take_digits s1 in
  match ip with
  | [] => None
  | d0 :: more =>
      if (d0 =? ch "0") && negb (bool_decide (more = [])) then None
      else
        let fraction :=
          match s2 with
          | c :: r =>
              if c =? ch "." then
                let '(fp, s3) := take_digits r in
                match fp with [] => None | _ => Some (fp, s3) end
              else Some ([], s2)
          | [] => Some ([], s2)
          end in
        match fraction with
        | None => None
        | Some (fp, s3) =>
            let exponent :=
              match s3 with
              | c :: r =>
                  if (c =? ch "e") || (c =? ch "E") then
                    let '(eneg, r') :=
                      match r with
                      | c' :: r'' =>
                          if c' =? ch "-" then (true, r'')
                          else if c' =? ch "+" then (false, r'')
                          else (false, r)
                      | [] => (false, r)
                      end in
                    let '(ep, s4) := take_digits r' in
                    match ep with
                    | [] => None
                    | _ => Some ((if eneg then - digits_value ep else digits_value ep), s4)
                    end
                  else Some (0, s3)
              | [] => Some (0, s3)
              end in
            match exponent with
            | Some (e, []) =>
                Some (mkNum neg (digits_value (ip ++ fp)) (e - Z.of_nat (length fp)))
            | _ => None
            end
        end
  end.

(** *** The parser: one step per token *)

(** A container whose next element is being read. *)
Inductive Cont :=
| CArr (acc : list JsValue)
| CObj (acc : list (jsstring * JsValue)) (key : jsstring).

Inductive PState :=
| SValue (stk : list Cont)
| SArrStart (stk : list Cont)
| SObjStart (stk : list Cont)
| SObjKey (acc : list (jsstring * JsValue)) (stk : list Cont)
| SObjColon (acc : list (jsstring * JsValue)) (key : jsstring) (stk : list Cont)
| SArrAfter (acc : list JsValue) (stk : list Cont)
| SObjAfter (acc : list (jsstring * JsValue)) (stk : list Cont)
| SDone (v : JsValue)
| SFail.

(** CreateDataProperty: a repeated key overwrites the value and keeps the
    place of the first occurrence. *)
Fixpoint set_member (k : jsstring) (v : JsValue) (ms : list (jsstring * JsValue))
  : list (jsstring * JsValue) :=
  match ms with
  | [] => [(k, v)]
  | (k', v') :: r =>
      if jsstring_eqb k k' then (k', v) :: r else (k', v') :: set_member k v r
  end.

Definition complete (v : JsValue) (stk : list Cont) : PState :=
  match stk with
  | [] => SDone v
  | CArr acc :: stk' => SArrAfter (v :: acc) stk'
  | CObj acc key :: stk' => SObjAfter (set_member key v acc) stk'
  end.

Definition value_step (stk : list Cont) (t : Token) : PState :=
  match t with
  | TLit v => complete v stk
  | TLBracket => SArrStart stk
  | TLBrace => SObjStart stk
  | _ => SFail
  end.

Definition parse_step (st : PState) (t : Token) : PState :=
  match st with
  | SValue stk => value_step stk t
  | SArrStart stk =>
      match t with
      | TRBracket => complete (JArr []) stk
      | _ => value_step (CArr [] :: stk) t
      end
  | SObjStart stk =>
      match t with
      | TRBrace => complete (JObj []) stk
      | TLit (JStr k) => SObjColon [] k stk
      | _ => SFail
      end
  | SObjKey acc stk =>
      match t with
      | TLit (JStr k) => SObjColon acc k stk
      | _ => SFail
      end
  | SObjColon acc k stk =>
      match t with
      | TColon => SValue (CObj acc k :: stk)
      | _ => SFail
      end
  | SArrAfter acc stk =>
      match t with
      | TComma => SValue (CArr acc :: stk)
      | TRBracket => complete (JArr (rev acc)) stk
      | _ => SFail
      end
  | SObjAfter acc stk =>
      match t with
      | TComma => SObjKey acc stk
      | TRBrace => complete (JObj acc) stk
      | _ => SFail
      end
  | SDone _ => SFail
  | SFail => SFail
  end.

(** *** The lexer: one step per code unit *)

Inductive Lex :=
| LIdle
| LWord (rest : jsstring) (v : JsValue)
| LStr (acc : jsstring)
| LEsc (acc : jsstring)
| LHex (acc : jsstring) (left : nat) (val : Z)
| LNum (acc : jsstring)
| LFail.

(** [acc] holds the code units read so far, last one first. *)
Definition finish_number (acc : jsstring) (p : PState) : PState :=
  match parse_number (rev acc) with
  | Some n => parse_step p (TLit (JNum n))
  | None => SFail
  end.

Definition idle_step (p : PState) (c : Z) : Lex * PState :=
  if is_json_ws c then (LIdle, p)
  else if c =? ch "{" then (LIdle, parse_step p TLBrace)
  else if c =? ch "}" then (LIdle, parse_step p TRBrace)
  else if c =? ch "[" then (LIdle, parse_step p TLBracket)
  else if c =? ch "]" then (LIdle, parse_step p TRBracket)
  else if c =? ch ":" then (LIdle, parse_step p TColon)
  else if c =? ch "," then (LIdle, parse_step p TComma)
  else if c =? 34 then (LStr [], p)
  else if c =? ch "n" then (LWord (js "ull") JNull, p)
  else if c =? ch "t" then (LWord (js "rue") (JBool true), p)
  else if c =? ch "f" then (LWord (js "alse") (JBool false), p)
  else if (c =? ch "-") || is_digit c then (LNum [c], p)
  else (LFail, p).

Definition escape_value (c : Z) : option Z :=
  if c =? 34 then Some 34
  else if c =? 92 then Some 92
  else if c =? ch "/" then Some (ch "/")
  else if c =? ch "b" then Some 8
  else if c =? ch "f" then Some 12
  else if c =? ch "n" then Some 10
  else if c =? ch "r" then Some 13
  else if c =? ch "t" then Some 9
  else None.

Definition lex_step (st : Lex * PState) (c : Z) : Lex * PState :=
  let '(l, p) := st in
  match l with
  | LIdle => idle_step p c
  | LWord rest v =>
      match rest with
      | e :: rest' =>
          if c =? e then
            match rest' with
            | [] => (LIdle, parse_step p (TLit v))
            | _ => (LWord rest' v, p)
            end
          else (LFail, p)
      | [] => (LFail, p)
      end
  | LStr acc =>
      if c =? 34 then (LIdle, parse_step p (TLit (JStr (rev acc))))
      else if c =? 92 then (LEsc acc, p)
      else if c <? 32 then (LFail, p)
      else (LStr (c :: acc), p)
  | LEsc acc =>
      if c =? ch "u" then (LHex acc 4 0, p)
      else match escape_value c with
           | Some u => (LStr (u :: acc), p)
           | None => (LFail, p)
           end
  | LHex acc n val =>
      match hex_value c with
      | Some d =>
          match n with
          | S O => (LStr ((val * 16 + d) :: acc), p)
          | S n' => (LHex acc n' (val * 16 + d), p)
          | O => (LFail, p)
          end
      | None => (LFail, p)
      end
  | LNum acc =>
      if is_number_char c then (LNum (c :: acc), p)
      else idle_step (finish_number acc p) c
  | LFail => (LFail, p)
  end.

Definition lex_end (st : Lex * PState) : PState :=
  let '(l, p) := st in
  match l with
  | LIdle => p
  | LNum acc => finish_number acc p
  | _ => SFail
  end.

Definition JSON_parse (text : jsstring) : completion JsValue :=
  match lex_end (fold_left lex_step text (LIdle, SValue [])) with
  | SDone v => Normal v
  | _ => Throw SyntaxError
  end.

(** [JSON.parse(x)] where [x] is a string or [null]: the argument is first
    converted with ToString, and [null] becomes the text [null]. *)
Definition JSON_parse_item (x : option jsstring) : completion JsValue :=
  JSON_parse (match x with Some s => s | None => js "null" end).

(** A test literal in which ['] stands for the double quote. *)
Definition jsq (s : string) : jsstring :=
  List.map (fun c => if c =? 39 then 34 else c) (js s).

(** ** Other host functions used by the module *)

(** Number::toString for an integer below 10^21 in magnitude: its decimal
    digits. *)
Fixpoint pos_digits (fuel : nat) (n : Z) (acc : jsstring) : jsstring :=
  match fuel with
  | O => acc
  | S fuel' =>
      let acc' := (48 + n mod 10) :: acc in
      if n <? 10 then acc' else pos_digits fuel' (n / 10) acc'
  end.

Definition Number_toString (n : Z) : jsstring :=
  if n <? 0 then ch "-" :: pos_digits (Z.to_nat (Z.log2 (- n)) + 1) (- n) []
  else pos_digits (Z.to_nat (Z.log2 n) + 1) n [].

(** WhiteSpace and LineTerminator code points, all of them in the BMP. *)
Definition is_js_whitespace (c : Z) : bool :=
  ((9 <=? c) && (c <=? 13)) || (c =? 32) || (c =? 160) || (c =? 5760)
  || ((8192 <=? c) && (c <=? 8202)) || (c =? 8232) || (c =? 8233)
  || (c =? 8239) || (c =? 8287) || (c =? 12288) || (c =? 65279).

Fixpoint trim_start (s : jsstring) : jsstring :=
  match s with
  | c :: r => if is_js_whitespace c then trim_start r else s
  | [] => []
  end.

(** String.prototype.trim *)
Definition trim (s : jsstring) : jsstring :=
  rev (trim_start (rev (trim_start s))).

(** Array.prototype.join *)
Fixpoint join (sep : jsstring) (parts : list jsstring) : jsstring :=
  match parts with
  | [] => []
  | [p] => p
  | p :: rest => p ++ sep ++ join sep rest
  end.

(** *** Date.prototype.toISOString

    A time value is the number of milliseconds since the epoch. *)

(** String.prototype.padStart with the digit zero *)
Definition pad_left (width : nat) (s : jsstring) : jsstring :=
  repeat 48 (width - length s)%nat ++ s.

Definition two (n : Z) : jsstring := pad_left 2 (Number_toString n).

(** Year, month and day of a day number counted from 1970-01-01, in the
    proleptic Gregorian calendar. *)
Definition civil_from_days (days : Z) : Z * Z * Z :=
  let z := days + 719468 in
  let era := z / 146097 in
  let doe := z - era * 146097 in
  let yoe := (doe - doe / 1460 + doe / 36524 - doe / 146096) / 365 in
  let doy := doe - (365 * yoe + yoe / 4 - yoe / 100) in
  let mp := (5 * doy + 2) / 153 in
  let d := doy - (153 * mp + 2) / 5 + 1 in
  let m := if mp <? 10 then mp + 3 else mp - 9 in
  let y := yoe + era * 400 in
  ((if m <=? 2 then y + 1 else y), m, d).

Definition year_string (y : Z) : jsstring :=
  if (0 <=? y) && (y <=? 9999) then pad_left 4 (Number_toString y)
  else (if y <? 0 then ch "-" else ch "+") :: pad_left 6 (Number_toString (Z.abs y)).

Definition toISOString (t : Z) : jsstring :=
  let '(y, m, d) := civil_from_days (t / 86400000) in
  let ms := t mod 86400000 in
  year_string y ++ js "-" ++ two m ++ js "-" ++ two d ++ js "T"
  ++ two (ms / 3600000) ++ js ":" ++ two (ms / 60000 mod 60) ++ js ":"
  ++ two (ms / 1000 mod 60) ++ js "."
  ++ pad_left 3 (Number_toString (ms mod 1000)) ++ js "Z".

(** *** JSON.stringify, for the two shapes the module persists *)

Definition hex_digit (d : Z) : Z := if d <? 10 then 48 + d else 87 + d.

(** The six-character escape of a code unit, with lowercase digits. *)
Definition unicode_escape (c : Z) : jsstring :=
  [92; ch "u"; hex_digit (c / 4096 mod 16); hex_digit (c / 256 mod 16);
   hex_digit (c / 16 mod 16); hex_digit (c mod 16)].

Definition is_high_surrogate (c : Z) : bool := (55296 <=? c) && (c <=? 56319).
Definition is_low_surrogate (c : Z) : bool := (56320 <=? c) && (c <=? 57343).

Definition quote_unit (c : Z) : jsstring :=
  if c =? 8 then [92; ch "b"]
  else if c =? 9 then [92; ch "t"]
  else if c =? 10 then [92; ch "n"]
  else if c =? 12 then [92; ch "f"]
  else if c =? 13 then [92; ch "r"]
  else if c =? 34 then [92; 34]
  else if c =? 92 then [92; 92]
  else if c <? 32 then unicode_escape c
  else [c].

(** QuoteJSONString without the surrounding quotes: a surrogate that is not
    part of a pair is escaped. *)
Fixpoint quote_units (s : jsstring) : jsstring :=
  match s with
  | [] => []
  | c :: r =>
      if is_high_surrogate c then
        match r with
        | c' :: r' =>
            if is_low_surrogate c' then c :: c' :: quote_units r'
            else unicode_escape c ++ quote_units r
        | [] => unicode_escape c
        end
      else if is_low_surrogate c then unicode_escape c ++ quote_units r
      else quote_unit c ++ quote_units r
  end.

Definition QuoteJSONString (s : jsstring) : jsstring :=
  [34] ++ quote_units s ++ [34].

(** ** The data model *)

Module Feed.

Record t := mk {
  id : Z;
  name : jsstring;
  url : jsstring;
  category : jsstring;
  dateAdded : jsstring;
  enabled : bool
}.

(** [feed.enabled = !feed.enabled] *)
Definition flip (f : t) : t :=
  mk (id f) (name f) (url f) (category f) (dateAdded f) (negb (enabled f)).

End Feed.

(** The argument of [addCustomFeed]; [category] may be missing. *)
Module FeedData.

Record t := mk {
  name : jsstring;
  url : jsstring;
  category : option jsstring
}.

End FeedData.

Definition stringify_feed (f : Feed.t) : jsstring :=
  js "{" ++ QuoteJSONString (js "id") ++ js ":" ++ Number_toString (Feed.id f)
  ++ js "," ++ QuoteJSONString (js "name") ++ js ":" ++ QuoteJSONString (Feed.name f)
  ++ js "," ++ QuoteJSONString (js "url") ++ js ":" ++ QuoteJSONString (Feed.url f)
  ++ js "," ++ QuoteJSONString (js "category") ++ js ":" ++ QuoteJSONString (Feed.category f)
  ++ js "," ++ QuoteJSONString (js "dateAdded") ++ js ":" ++ QuoteJSONString (Feed.dateAdded f)
  ++ js "," ++ QuoteJSONString (js "enabled") ++ js ":"
  ++ (if Feed.enabled f then js "true" else js "false") ++ js "}".

(** [JSON.stringify(this.customFeeds)] *)
Definition JSON_stringify_feeds (l : list Feed.t) : jsstring :=
  js "[" ++ join (js ",") (List.map stringify_feed l) ++ js "]".

(** [JSON.stringify(this.deletedArticles)] *)
Definition JSON_stringify_urls (l : list jsstring) : jsstring :=
  js "[" ++ join (js ",") (List.map QuoteJSONString l) ++ js "]".

(** *** Reading a parsed value as a collection of this model

    The registries below hold well-shaped collections: feed objects with
    exactly the six properties the module writes, and URL strings.  Any
    other parsed value is outside this typed view. *)

Definition pow2_53 : Z := 9007199254740992.

(** The integer a number denotes, when it is one within the safe range. *)
Definition num_to_Z (n : JsNum) : option Z :=
  let m := num_mantissa n in
  let e := num_exp10 n in
  let magnitude :=
    if 0 <=? e then Some (m * 10 ^ e)
    else if m mod 10 ^ (- e) =? 0 then Some (m / 10 ^ (- e)) else None in
  match magnitude with
  | Some a =>
      if a <? pow2_53 then Some (if num_neg n then - a else a) else None
  | None => None
  end.

Definition decode_feed (v : JsValue) : option Feed.t :=
  match v with
  | JObj [(k1, JNum i); (k2, JStr n); (k3, JStr u); (k4, JStr c);
          (k5, JStr d); (k6, JBool e)] =>
      if jsstring_eqb k1 (js "id") && jsstring_eqb k2 (js "name")
         && jsstring_eqb k3 (js "url") && jsstring_eqb k4 (js "category")
         && jsstring_eqb k5 (js "dateAdded") && jsstring_eqb k6 (js "enabled")
      then match num_to_Z i with
           | Some z => Some (Feed.mk z n u c d e)
           | None => None
           end
      else None
  | _ => None
  end.

Definition decode_url (v : JsValue) : option jsstring :=
  match v with JStr s => Some s | _ => None end.

Fixpoint decode_all {A} (f : JsValue -> option A) (vs : list JsValue)
  : option (list A) :=
  match vs with
  | [] => Some []
  | v :: r =>
      match f v, decode_all f r with
      | Some a, Some l => Some (a :: l)
      | _, _ => None
      end
  end.

Definition decode_feeds (v : JsValue) : option (list Feed.t) :=
  match v with JArr vs => decode_all decode_feed vs | _ => None end.

Definition decode_urls (v : JsValue) : option (list jsstring) :=
  match v with JArr vs => decode_all decode_url vs | _ => None end.

(** ** The state of a page running the module *)

Inductive ConsoleArg :=
| CText (s : jsstring)
| CError (e : JsError).

Inductive ConsoleLevel := LogLevel | ErrorLevel.

(** The browser services the module talks to. *)
Record Env := mkEnv {
  localStorage : gmap jsstring jsstring;
  console : list (ConsoleLevel * list ConsoleArg);
  alerts : list jsstring;
  clipboard : option jsstring
}.

(** The parts of the document the module creates and later reads or
    writes.  A badge is [None] while its element is not in the document;
    the form controls are meaningful once [addModals] has run. *)
Record Dom := mkDom {
  custom_count : option jsstring;
  deleted_count : option jsstring;
  stats_badge : option jsstring;
  add_feed_modal_display : jsstring;
  feed_name_value : jsstring;
  feed_url_value : jsstring;
  feed_category_value : jsstring
}.

Record Customizer := mkCustomizer {
  customFeeds : list Feed.t;
  deletedArticles : list jsstring;
  dom : Dom;
  env : Env
}.

Definition with_customFeeds (l : list Feed.t) (c : Customizer) : Customizer :=
  mkCustomizer l (deletedArticles c) (dom c) (env c).
Definition with_deletedArticles (l : list jsstring) (c : Customizer) : Customizer :=
  mkCustomizer (customFeeds c) l (dom c) (env c).
Definition with_dom (d : Dom) (c : Customizer) : Customizer :=
  mkCustomizer (customFeeds c) (deletedArticles c) d (env c).
Definition with_env (e : Env) (c : Customizer) : Customizer :=
  mkCustomizer (customFeeds c) (deletedArticles c) (dom c) e.

(** [localStorage.setItem(key, value)] *)
Definition setItem (key value : jsstring) (e : Env) : Env :=
  mkEnv (<[key := value]> (localStorage e)) (console e) (alerts e) (clipboard e).

(** [localStorage.getItem(key)]: [None] stands for [null]. *)
Definition getItem (key : jsstring) (e : Env) : option jsstring :=
  localStorage e !! key.

Definition console_write (level : ConsoleLevel) (args : list ConsoleArg) (e : Env)
  : Env :=
  mkEnv (localStorage e) (console e ++ [(level, args)]) (alerts e) (clipboard e).

(** [console.log(...args)] *)
Definition console_log (args : list ConsoleArg) (e : Env) : Env :=
  console_write LogLevel args e.

(** The two services the loaders call, as scripts over the environment. *)
Definition localStorage_getItem (key : jsstring) : Script Env (option jsstring) :=
  fun e => (Normal (getItem key e), e).

Definition console_error (args : list ConsoleArg) : Script Env unit :=
  fun e => (Normal tt, console_write ErrorLevel args e).

Definition alert (msg : jsstring) (e : Env) : Env :=
  mkEnv (localStorage e) (console e) (alerts e ++ [msg]) (clipboard e).

Definition clipboard_write (text : jsstring) (e : Env) : Env :=
  mkEnv (localStorage e) (console e) (alerts e) (Some text).

(** ** Custom feeds management *)

Definition key_customFeeds : jsstring := js "snd_customFeeds".
Definition key_deletedArticles : jsstring := js "snd_deletedArticles".

(** The common body of the two loaders:
    [try { return JSON.parse(localStorage.getItem(key)) || []; }
     catch (e) { console.error(msg, e); return []; }] *)
Definition load (key msg : jsstring) : Script Env JsValue :=
  try_catch
    (item ← localStorage_getItem key;
     v ← lift_completion (JSON_parse_item item);
     mret (js_or v (JArr [])))
    (fun err =>
       _ ← console_error [CText msg; CError err];
       mret (JArr [])).

Definition loadCustomFeeds : Script Env JsValue :=
  load key_customFeeds (js "Error loading custom feeds:").

Definition loadDeletedArticles : Script Env JsValue :=
  load key_deletedArticles (js "Error loading deleted articles:").

Definition set_count (badge : option jsstring) (n : nat) : option jsstring :=
  match badge with
  | Some _ => Some (Number_toString (Z.of_nat n))
  | None => None
  end.

Definition updateStats (c : Customizer) : Customizer :=
  let d := dom c in
  with_dom (mkDom (set_count (custom_count d) (length (customFeeds c)))
                  (set_count (deleted_count d) (length (deletedArticles c)))
                  (stats_badge d) (add_feed_modal_display d)
                  (feed_name_value d) (feed_url_value d) (feed_category_value d)) c.

Definition saveCustomFeeds (c : Customizer) : Customizer :=
  updateStats
    (with_env (setItem key_customFeeds (JSON_stringify_feeds (customFeeds c)) (env c)) c).

(** [feedData.category || 'General'] *)
Definition category_or_General (cat : option jsstring) : jsstring :=
  match cat with
  | Some (x :: r) => x :: r
  | _ => js "General"
  end.

(** [now] is the reading of [Date.now()] and [date] the time value of
    [new Date()], the two clock readings the call takes. *)
Definition addCustomFeed (now date : Z) (feedData : FeedData.t) (c : Customizer)
  : Feed.t * Customizer :=
  let feed :=
    Feed.mk now (FeedData.name feedData) (FeedData.url feedData)
            (category_or_General (FeedData.category feedData))
            (toISOString date) true in
  (feed, saveCustomFeeds (with_customFeeds (customFeeds c ++ [feed]) c)).

Definition removeCustomFeed (feedId : Z) (c : Customizer) : Customizer :=
  saveCustomFeeds
    (with_customFeeds (filter (fun f => Feed.id f <> feedId) (customFeeds c)) c).

(** [find] yields the first entry with the id; the entry is then changed in
    place, that is, at its index. *)
Definition toggleCustomFeed (feedId : Z) (c : Customizer) : Customizer :=
  match list_find (fun f => Feed.id f = feedId) (customFeeds c) with
  | Some (i, feed) =>
      saveCustomFeeds (with_customFeeds (<[i := Feed.flip feed]> (customFeeds c)) c)
  | None => c
  end.

(** ** Article deletion *)

Definition saveDeletedArticles (c : Customizer) : Customizer :=
  updateStats
    (with_env (setItem key_deletedArticles
                       (JSON_stringify_urls (deletedArticles c)) (env c)) c).

(** [Array.prototype.includes] on strings *)
Definition includes (l : list jsstring) (x : jsstring) : bool :=
  bool_decide (x ∈ l).

Definition deleteArticle (articleUrl : jsstring) (c : Customizer) : Customizer :=
  if negb (includes (deletedArticles c) articleUrl)
  then saveDeletedArticles
         (with_deletedArticles (deletedArticles c ++ [articleUrl]) c)
  else c.

Definition restoreArticle (articleUrl : jsstring) (c : Customizer) : Customizer :=
  saveDeletedArticles
    (with_deletedArticles
       (filter (fun u => u <> articleUrl) (deletedArticles c)) c).

Definition isArticleDeleted (articleUrl : jsstring) (c : Customizer) : bool :=
  includes (deletedArticles c) articleUrl.

(** ** UI setup *)

(** The text of the [snd-stats-badge] span as [addControlButtons] writes it. *)
Definition stats_badge_text (enabledCount : nat) : jsstring :=
  [10] ++ repeat 32 24 ++ Number_toString (Z.of_nat enabledCount)
  ++ js " Custom Feeds Active" ++ [10] ++ repeat 32 20.

Definition enabledCount (l : list Feed.t) : nat :=
  length (filter (fun f => Feed.enabled f = true) l).

(** The modals start hidden by the style sheet, with empty form fields. *)
Definition addModals (c : Customizer) : Customizer :=
  let d := dom c in
  with_dom (mkDom (custom_count d) (deleted_count d) (stats_badge d) [] [] [] []) c.

(** The control bar is rendered once, from the collections as they are at
    that moment. *)
Definition addControlButtons (c : Customizer) : Customizer :=
  let d := dom c in
  addModals
    (with_dom (mkDom (Some (Number_toString (Z.of_nat (length (customFeeds c)))))
                     (Some (Number_toString (Z.of_nat (length (deletedArticles c)))))
                     (Some (stats_badge_text (enabledCount (customFeeds c))))
                     (add_feed_modal_display d)
                     (feed_name_value d) (feed_url_value d) (feed_category_value d)) c).

(** [injectStyles] and [addDeleteButtonsToArticles] only style and decorate
    the article list items, which [Dom] does not hold, and raise on no page;
    of [setupUI] the control bar remains. *)
Definition setupUI (c : Customizer) : Customizer := addControlButtons c.

(** A document in which the module has not run yet. *)
Definition blank_page : Dom := mkDom None None None [] [] [] [].

(** The selector [applyArticleFilters] builds for a deleted URL, the URL
    spliced as it is between the double quotes. *)
Definition article_selector (url : jsstring) : jsstring :=
  jsq "a[href='" ++ url ++ jsq "']".

Section Document.

(** Whether the host's selector parser accepts a text:
    [document.querySelectorAll(s)] returns when it does and raises an
    exception named SyntaxError otherwise. *)
Variable selector_parses : jsstring -> bool.

Definition querySelectorAll_raises (selector : jsstring) : completion unit :=
  if selector_parses selector then Normal tt else Throw SyntaxError.

(** [this.deletedArticles.forEach(url => querySelectorAll(...)...)]: the
    links found are styled, which [Dom] does not hold; what shows here is the
    lookup that raises, which ends the loop. *)
Fixpoint applyArticleFilters_from (urls : list jsstring) : completion unit :=
  match urls with
  | [] => Normal tt
  | url :: rest =>
      match querySelectorAll_raises (article_selector url) with
      | Normal _ => applyArticleFilters_from rest
      | Throw err => Throw err
      end
  end.

Definition applyArticleFilters (c : Customizer) : completion Customizer :=
  match applyArticleFilters_from (deletedArticles c) with
  | Normal _ => Normal c
  | Throw err => Throw err
  end.

Definition init (c : Customizer) : completion Customizer :=
  match applyArticleFilters (setupUI c) with
  | Normal c' => Normal (updateStats c')
  | Throw err => Throw err
  end.

(** The constructor.  It yields [None] when a stored collection is outside
    the typed view of [decode_feeds] and [decode_urls], and otherwise the
    page it builds or the error [init] raises. *)
Definition new_SeniorNewsCustomizer (e : Env) : option (completion Customizer) :=
  let '(r1, e1) := loadCustomFeeds e in
  let '(r2, e2) := loadDeletedArticles e1 in
  match r1, r2 with
  | Normal v1, Normal v2 =>
      match decode_feeds v1, decode_urls v2 with
      | Some feeds, Some urls => Some (init (mkCustomizer feeds urls blank_page e2))
      | _, _ => None
      end
  | _, _ => None
  end.

End Document.

(** ** UI interactions *)

Definition closeModal_add_feed (c : Customizer) : Customizer :=
  let d := dom c in
  with_dom (mkDom (custom_count d) (deleted_count d) (stats_badge d) (js "none")
                  (feed_name_value d) (feed_url_value d) (feed_category_value d)) c.

(** [document.getElementById('snd-add-feed-form').reset()] *)
Definition reset_add_feed_form (c : Customizer) : Customizer :=
  let d := dom c in
  with_dom (mkDom (custom_count d) (deleted_count d) (stats_badge d)
                  (add_feed_modal_display d) [] [] []) c.

Definition alert_in (msg : jsstring) (c : Customizer) : Customizer :=
  with_env (alert msg (env c)) c.

Definition msg_required_fields : jsstring := js "Please fill in all required fields.".
Definition msg_invalid_url : jsstring := js "Please enter a valid URL.".

(** The source file stores the leading check mark as the three characters
    U+201A, U+00FA, U+00D6. *)
Definition check_mark : jsstring := [8218; 250; 214].

Definition msg_added (name : jsstring) : jsstring :=
  check_mark ++ js " Successfully added " ++ [34] ++ name ++ [34] ++ js "!"
  ++ [10; 10]
  ++ js "Your custom feed has been saved. Note: Articles from this feed will appear on the next site update.".

(** [!s] for a string *)
Definition is_empty (s : jsstring) : bool :=
  match s with [] => true | _ => false end.

Section AddFeedForm.

(** Whether the host's URL parser accepts a string given without a base:
    [new URL(s)] returns when it does and throws a TypeError otherwise. *)
Variable URL_parses : jsstring -> bool.

Definition new_URL (s : jsstring) : completion unit :=
  if URL_parses s then Normal tt else Throw TypeError.

Definition handleAddFeed (now date : Z) (c : Customizer) : Customizer :=
  let name := trim (feed_name_value (dom c)) in
  let url := trim (feed_url_value (dom c)) in
  let category := trim (feed_category_value (dom c)) in
  if is_empty name || is_empty url then alert_in msg_required_fields c
  else
    match new_URL url with
    | Throw _ => alert_in msg_invalid_url c
    | Normal _ =>
        let '(_, c1) := addCustomFeed now date (FeedData.mk name url (Some category)) c in
        let c2 := alert_in (msg_added name) c1 in
        let c3 := closeModal_add_feed c2 in
        let c4 := reset_add_feed_form c3 in
        updateStats c4
    end.

End AddFeedForm.

(** ** Export feeds for YAML *)

Definition yaml_line (feed : Feed.t) : jsstring :=
  js "  - " ++ Feed.url feed ++ js "  # " ++ Feed.name feed
  ++ js " (" ++ Feed.category feed ++ js ")".

Definition yaml_header : jsstring := js "# Custom feeds added by user".

Definition yamlLines (l : list Feed.t) : list jsstring :=
  yaml_header :: List.map yaml_line l.

Definition yamlContent (l : list Feed.t) : jsstring := join [10] (yamlLines l).

Definition msg_no_feeds : jsstring := js "No custom feeds to export.".

Definition msg_copied : jsstring :=
  check_mark ++ js " Custom feeds copied to clipboard!" ++ [10; 10]
  ++ js "You can paste these into your feeds.yaml file.".

Definition msg_fallback (content : jsstring) : jsstring :=
  js "Custom feeds:" ++ [10; 10] ++ content.

(** What the page finds under [navigator.clipboard]: nothing (the property
    is undefined outside a secure context), or an object whose [writeText]
    promise is then rejected or fulfilled. *)
Inductive ClipboardAccess := ClipboardMissing | WriteRejected | WriteFulfilled.

(** Without [navigator.clipboard] the call of [writeText] raises a TypeError
    before the listing is logged.  Otherwise the listing is logged and the
    reaction to the promise runs after the rest of the method. *)
Definition exportCustomFeedsForYAML (access : ClipboardAccess)
  : Script Customizer unit :=
  fun c =>
    match customFeeds c with
    | [] => (Normal tt, alert_in msg_no_feeds c)
    | _ =>
        let content := yamlContent (customFeeds c) in
        let e1 := console_log [CText (js "Custom Feeds for feeds.yaml:" ++ [10]);
                               CText content] (env c) in
        match access with
        | ClipboardMissing => (Throw TypeError, c)
        | WriteFulfilled =>
            (Normal tt, with_env (alert msg_copied (clipboard_write content e1)) c)
        | WriteRejected =>
            (Normal tt, with_env (alert (msg_fallback content) e1) c)
        end
    end.

(** ** Sessions on the Feed Registry *)

(** One call on the Feed Registry; an [add] carries the two clock readings
    it takes. *)
Inductive FeedOp :=
| OpAdd (now date : Z) (feedData : FeedData.t)
| OpRemove (feedId : Z)
| OpToggle (feedId : Z).

Definition apply_op (c : Customizer) (op : FeedOp) : Customizer :=
  match op with
  | OpAdd now date feedData => snd (addCustomFeed now date feedData c)
  | OpRemove feedId => removeCustomFeed feedId c
  | OpToggle feedId => toggleCustomFeed feedId c
  end.

Definition run (ops : list FeedOp) (c : Customizer) : Customizer :=
  fold_left apply_op ops c.

(** The [Date.now()] readings of the [add] calls of a session, in order. *)
Definition add_readings (ops : list FeedOp) : list Z :=
  omap (fun op => match op with OpAdd now _ _ => Some now | _ => None end) ops.

Definition ids (c : Customizer) : list Z := Feed.id <$> customFeeds c.

(** ** Vocabulary of the properties *)

(** What a loader returns, case by case on the stored item. *)
Definition load_contract (key : jsstring) (e : Env) (r : completion JsValue) : Prop :=
  (exists v, r = Normal v)
  /\ (getItem key e = None -> r = Normal (JArr []))
  /\ (forall text err,
        getItem key e = Some text -> JSON_parse text = Throw err ->
        r = Normal (JArr []))
  /\ (forall text v,
        getItem key e = Some text -> JSON_parse text = Normal v ->
        truthy v = false -> r = Normal (JArr []))
  /\ (forall text v,
        getItem key e = Some text -> JSON_parse text = Normal v ->
        truthy v = true -> r = Normal v).






(** ** Sample stores, pages and feeds *)

Definition empty_env : Env := mkEnv ∅ [] [] None.

(** A store whose feed item is valid JSON of the wrong shape, and one whose
    feed item is cut short. *)
Definition wrong_shape_text : jsstring := jsq "{'a':1}".
Definition wrong_shape_env : Env :=
  mkEnv (<[key_customFeeds := wrong_shape_text]> ∅) [] [] None.
Definition corrupt_text : jsstring := jsq "{'a':1".
Definition corrupt_env : Env :=
  mkEnv (<[key_customFeeds := corrupt_text]> ∅) [] [] None.

(** Two entries created in the same millisecond, and a third one. *)
Definition feed_a : Feed.t :=
  Feed.mk 1000 (js "A") (js "https://a.example/rss") (js "General")
          (toISOString 1000) true.
Definition feed_b : Feed.t :=
  Feed.mk 1000 (js "B") (js "https://b.example/rss") (js "Health")
          (toISOString 1000) true.
Definition feed_c : Feed.t :=
  Feed.mk 2000 (js "C") (js "https://c.example/rss") (js "Travel")
          (toISOString 2000) true.

Definition data_a : FeedData.t :=
  FeedData.mk (js "A") (js "https://a.example/rss") None.
Definition data_b : FeedData.t :=
  FeedData.mk (js "B") (js "https://b.example/rss") (Some (js "Health")).

Definition fresh_page : Customizer := mkCustomizer [] [] blank_page empty_env.
Definition one_feed : Customizer := mkCustomizer [feed_a] [] blank_page empty_env.
Definition twins : Customizer :=
  mkCustomizer [feed_c; feed_a; feed_b] [] blank_page empty_env.
Definition one_deleted : Customizer :=
  mkCustomizer [] [js "https://news.example.com/a0"] blank_page empty_env.

(** A form filled in with a padded name and URL, and one with a blank URL. *)
Definition filled_form : Customizer :=
  mkCustomizer [] [] (mkDom (Some (js "0")) (Some (js "0")) (Some (stats_badge_text 0))
                            (js "block") (js "  Senior Living Magazine ")
                            (js " https://example.com/rss") (js "Lifestyle"))
               empty_env.
Definition blank_url_form : Customizer :=
  mkCustomizer [] [] (mkDom (Some (js "0")) (Some (js "0")) (Some (stats_badge_text 0))
                            (js "block") (js "Senior Living Magazine")
                            (js "   ") (js "Lifestyle"))
               empty_env.

(** A stand-in for the host's URL parser that accepts exactly one string. *)
Definition accepts_example (s : jsstring) : bool :=
  bool_decide (s = js "https://example.com/rss").



(** ** Further controller methods *)

(** [location.reload()]: the page is built anew, by the constructor, over
    what the browser kept. *)
Definition reload (selector_parses : jsstring -> bool) (c : Customizer)
  : option (completion Customizer) :=
  new_SeniorNewsCustomizer selector_parses (env c).

(** [confirmed] is the answer to the [confirm] dialog. *)
Definition clearAllDeleted (selector_parses : jsstring -> bool) (confirmed : bool)
    (c : Customizer) : option (completion Customizer) :=
  if confirmed
  then reload selector_parses (saveDeletedArticles (with_deletedArticles [] c))
  else Some (Normal c).

(** ** The list dialogs *)

(** [escapeHtml]: the text is put in a fresh element and read back as
    markup, so the ampersand, the angle brackets and the no-break space come
    back as character references. *)
Definition escape_unit (c : Z) : jsstring :=
  if c =? 38 then js "&amp;"
  else if c =? 60 then js "&lt;"
  else if c =? 62 then js "&gt;"
  else if c =? 160 then js "&nbsp;"
  else [c].

Definition escapeHtml (text : jsstring) : jsstring :=
  concat (List.map escape_unit text).

(** What the two list dialogs show: the markup assigned to the list element
    and the [display] style of the dialog. *)
Record Dialogs := mkDialogs {
  feeds_list_html : jsstring;
  manage_feeds_display : jsstring;
  deleted_list_html : jsstring;
  deleted_articles_display : jsstring
}.

(** A line of a template literal: a line feed, the indentation, the text. *)
Definition template_line (indent : nat) (text : jsstring) : jsstring :=
  [10] ++ repeat 32 indent ++ text.

Definition feed_item_html (feed : Feed.t) : jsstring :=
  template_line 16 (jsq "<div class='snd-feed-item'>")
  ++ template_line 20 (jsq "<div class='snd-feed-info'>")
  ++ template_line 24 (jsq "<div class='snd-feed-name'>"
                       ++ escapeHtml (Feed.name feed) ++ js "</div>")
  ++ template_line 24 (jsq "<div class='snd-feed-url'>"
                       ++ escapeHtml (Feed.url feed) ++ js "</div>")
  ++ template_line 24 (jsq "<span class='snd-feed-category'>"
                       ++ escapeHtml (Feed.category feed) ++ js "</span>")
  ++ template_line 20 (js "</div>")
  ++ template_line 20 (jsq "<div class='snd-feed-actions'>")
  ++ template_line 24
       (jsq "<button class='snd-btn snd-btn-danger' onclick='sndCustomizer.removeFeedUI("
        ++ Number_toString (Feed.id feed) ++ jsq ")'>Remove</button>")
  ++ template_line 20 (js "</div>")
  ++ template_line 16 (js "</div>")
  ++ template_line 12 [].

Definition no_feeds_html : jsstring :=
  jsq "<div class='snd-empty-state'>No custom sources added yet. Click 'Add News Source' to get started!</div>".

Definition feeds_list_markup (feeds : list Feed.t) : jsstring :=
  match feeds with
  | [] => no_feeds_html
  | _ => concat (List.map feed_item_html feeds)
  end.

Definition openManageFeedsModal (c : Customizer) (d : Dialogs) : Dialogs :=
  mkDialogs (feeds_list_markup (customFeeds c)) (js "block")
            (deleted_list_html d) (deleted_articles_display d).

Definition deleted_item_html (url : jsstring) : jsstring :=
  template_line 16 (jsq "<div class='snd-feed-item'>")
  ++ template_line 20 (jsq "<div class='snd-feed-info'>")
  ++ template_line 24 (jsq "<div class='snd-feed-url'>" ++ escapeHtml url ++ js "</div>")
  ++ template_line 20 (js "</div>")
  ++ template_line 20 (jsq "<div class='snd-feed-actions'>")
  ++ template_line 24
       (jsq "<button class='snd-btn snd-btn-success' onclick='sndCustomizer.restoreArticleUI("
        ++ [39] ++ url ++ [39] ++ jsq ")'>Restore</button>")
  ++ template_line 20 (js "</div>")
  ++ template_line 16 (js "</div>")
  ++ template_line 12 [].

Definition no_deleted_html : jsstring :=
  jsq "<div class='snd-empty-state'>No deleted articles.</div>".

Definition deleted_list_markup (urls : list jsstring) : jsstring :=
  match urls with
  | [] => no_deleted_html
  | _ => concat (List.map deleted_item_html urls)
  end.

Definition openDeletedArticlesModal (c : Customizer) (d : Dialogs) : Dialogs :=
  mkDialogs (feeds_list_html d) (manage_feeds_display d)
            (deleted_list_markup (deletedArticles c)) (js "block").

(** [confirmed] is the answer to the [confirm] dialog; a confirmed removal
    renders the list again. *)
Definition removeFeedUI (confirmed : bool) (feedId : Z) (c : Customizer) (d : Dialogs)
  : Customizer * Dialogs :=
  if confirmed
  then let c' := removeCustomFeed feedId c in (c', openManageFeedsModal c' d)
  else (c, d).

(** The angle brackets of a markup, in order: its tag structure as far as
    element content goes. *)
Definition angle_brackets (markup : jsstring) : jsstring :=
  List.filter (fun c => (c =? 60) || (c =? 62)) markup.

(** ** Sessions over both registries *)

Inductive Action :=
| ActFeed (op : FeedOp)
| ActDelete (articleUrl : jsstring)
| ActRestore (articleUrl : jsstring)
| ActExport (access : ClipboardAccess).

Definition perform (c : Customizer) (a : Action) : Customizer :=
  match a with
  | ActFeed op => apply_op c op
  | ActDelete articleUrl => deleteArticle articleUrl c
  | ActRestore articleUrl => restoreArticle articleUrl c
  | ActExport access => snd (exportCustomFeedsForYAML access c)
  end.

Definition session (actions : list Action) (c : Customizer) : Customizer :=
  fold_left perform actions c.

(** ** Vocabulary of the further properties *)

(** A JavaScript string holds code units, numbers below 2^16. *)
Definition is_code_unit (c : Z) : Prop := 0 <= c < 65536.
Definition well_formed_string (s : jsstring) : Prop := Forall is_code_unit s.

(** A feed whose strings are JavaScript strings and whose id is an integer
    that a Number holds exactly. *)
Definition well_formed_feed (f : Feed.t) : Prop :=
  - pow2_53 < Feed.id f < pow2_53
  /\ well_formed_string (Feed.name f) /\ well_formed_string (Feed.url f)
  /\ well_formed_string (Feed.category f) /\ well_formed_string (Feed.dateAdded f).

(** The value [JSON.parse] builds for a feed entry and for a collection. *)
Definition feed_value (f : Feed.t) : JsValue :=
  JObj [(js "id", JNum (mkNum (Feed.id f <? 0) (Z.abs (Feed.id f)) 0));
        (js "name", JStr (Feed.name f)); (js "url", JStr (Feed.url f));
        (js "category", JStr (Feed.category f));
        (js "dateAdded", JStr (Feed.dateAdded f));
        (js "enabled", JBool (Feed.enabled f))].

(** Both stored items hold the serialization of their collection. *)
Definition feeds_persisted (c : Customizer) : Prop :=
  getItem key_customFeeds (env c) = Some (JSON_stringify_feeds (customFeeds c)).
Definition urls_persisted (c : Customizer) : Prop :=
  getItem key_deletedArticles (env c) = Some (JSON_stringify_urls (deletedArticles c)).

(** The collections of a page are made of JavaScript strings and of ids that
    a Number holds exactly. *)
Definition well_formed (c : Customizer) : Prop :=
  Forall well_formed_feed (customFeeds c)
  /\ Forall well_formed_string (deletedArticles c).

Definition persisted (c : Customizer) : Prop :=
  feeds_persisted c /\ urls_persisted c.

(** An action whose arguments are JavaScript strings and whose clock reading
    is an integer that a Number holds exactly. *)
Definition well_formed_action (a : Action) : Prop :=
  match a with
  | ActFeed (OpAdd now _ feedData) =>
      - pow2_53 < now < pow2_53
      /\ well_formed_string (FeedData.name feedData)
      /\ well_formed_string (FeedData.url feedData)
      /\ (forall cat, FeedData.category feedData = Some cat -> well_formed_string cat)
  | ActDelete articleUrl => well_formed_string articleUrl
  | _ => True
  end.

(** A stored item that is missing or is not valid JSON. *)
Definition unreadable (key : jsstring) (e : Env) : Prop :=
  getItem key e = None
  \/ exists text err, getItem key e = Some text /\ JSON_parse text = Throw err.

(** The two counters show the sizes of the collections. *)
Definition counters_in_sync (c : Customizer) : Prop :=
  custom_count (dom c) = Some (Number_toString (Z.of_nat (length (customFeeds c))))
  /\ deleted_count (dom c)
     = Some (Number_toString (Z.of_nat (length (deletedArticles c)))).

(** The host accepts the selector [applyArticleFilters] builds for each of
    the URLs. *)
Definition selectors_accepted (selector_parses : jsstring -> bool)
    (urls : list jsstring) : Prop :=
  Forall (fun url => selector_parses (article_selector url) = true) urls.

(** A selector parser for the sample runs: it accepts a text that holds two
    double quotes and neither a backslash nor a line feed, as the selector of
    a URL without any of these does. *)
Definition accepts_plain_selector (selector : jsstring) : bool :=
  Nat.eqb (length (List.filter (fun c => c =? 34) selector)) 2
  && forallb (fun c => negb ((c =? 92) || (c =? 10))) selector.

(** A page set up over a store that holds the two collections, both empty. *)
Definition stored_empty_page : Customizer :=
  updateStats (setupUI (saveDeletedArticles (saveCustomFeeds fresh_page))).

Definition sample_actions : list Action :=
  [ActFeed (OpAdd 1000 1000 data_a); ActDelete (js "https://news.example.com/a1");
   ActFeed (OpToggle 1000); ActExport WriteRejected; ActExport ClipboardMissing;
   ActFeed (OpAdd 1000 1001 data_b);
   ActRestore (js "https://news.example.com/a0");
   ActDelete (js "https://news.example.com/a1")].

(** * Properties *)

(** ** Sample runs of the host functions *)

Example JSON_parse_sample :
  JSON_parse (jsq " [ {'id': 17, 'on' :true}, -1.5e3,'aA\n', null ] ")
  = Normal (JArr [JObj [(js "id", JNum (mkNum false 17 0)); (js "on", JBool true)];
                  JNum (mkNum true 15 2); JStr [97; 65; 10]; JNull]).
Proof. vm_compute. reflexivity. Qed.

Example toISOString_epoch : toISOString 0 = js "1970-01-01T00:00:00.000Z".
Proof. vm_compute. reflexivity. Qed.

Example toISOString_sample :
  toISOString 1709210096789 = js "2024-02-29T12:34:56.789Z".
Proof. vm_compute. reflexivity. Qed.

(** ** Loading the registries *)

Lemma JSON_parse_null : JSON_parse_item None = Normal JNull.
Proof. vm_compute. reflexivity. Qed.

Lemma load_result (key msg : jsstring) (e : Env) :
  fst (load key msg e)
  = match JSON_parse_item (getItem key e) with
    | Normal v => Normal (if truthy v then v else JArr [])
    | Throw _ => Normal (JArr [])
    end.
Proof.
  unfold load, js_or, try_catch, localStorage_getItem, lift_completion.
  unfold mbind, Script_bind, mret, Script_ret.
  destruct (JSON_parse_item (getItem key e)); reflexivity.
Qed.

Lemma load_meets_contract (key msg : jsstring) (e : Env) :
  load_contract key e (fst (load key msg e)).
Proof.
  unfold load_contract. rewrite load_result.
  destruct (getItem key e) as [text|] eqn:Hget.
  - unfold JSON_parse_item.
    destruct (JSON_parse text) as [v|err] eqn:Hparse.
    + repeat split.
      * eexists; reflexivity.
      * discriminate.
      * intros t er Ht Hp. inversion Ht; subst. congruence.
      * intros t w Ht Hp Hw. inversion Ht; subst.
        rewrite Hparse in Hp. inversion Hp; subst. rewrite Hw. reflexivity.
      * intros t w Ht Hp Hw. inversion Ht; subst.
        rewrite Hparse in Hp. inversion Hp; subst. rewrite Hw. reflexivity.
    + repeat split; try reflexivity.
      * eexists; reflexivity.
      * intros t w Ht Hp Hw. inversion Ht; subst. congruence.
  - rewrite JSON_parse_null. cbn [truthy].
    repeat split; try reflexivity; try discriminate.
    eexists; reflexivity.
Qed.

(** Loading reads the store without changing it; a text that does not parse
    leaves one error entry on the console. *)
Lemma load_effects (key msg : jsstring) (e : Env) :
  localStorage (snd (load key msg e)) = localStorage e
  /\ (forall err,
        JSON_parse_item (getItem key e) = Throw err ->
        console (snd (load key msg e))
        = console e ++ [(ErrorLevel, [CText msg; CError err])]).
Proof.
  unfold load, try_catch, localStorage_getItem, lift_completion, console_error.
  unfold mbind, Script_bind, mret, Script_ret.
  destruct (JSON_parse_item (getItem key e)) as [v|err0]; simpl.
  - split; [reflexivity | discriminate].
  - split; [reflexivity|]. intros err Herr. by inversion Herr.
Qed.

(** C1, as stated, fails: the stored text [{"a":1}] is valid JSON that is
    not a sequence of feed entries, and [loadCustomFeeds] returns the parsed
    object instead of the empty collection. *)
Lemma loadCustomFeeds_wrong_shape_not_empty :
  getItem key_customFeeds wrong_shape_env = Some wrong_shape_text
  /\ JSON_parse wrong_shape_text
     = Normal (JObj [(js "a", JNum (mkNum false 1 0))])
  /\ decode_feeds (JObj [(js "a", JNum (mkNum false 1 0))]) = None
  /\ fst (loadCustomFeeds wrong_shape_env)
     = Normal (JObj [(js "a", JNum (mkNum false 1 0))])
  /\ fst (loadCustomFeeds wrong_shape_env) <> Normal (JArr []).
Proof.
  assert (Hload : fst (loadCustomFeeds wrong_shape_env)
                  = Normal (JObj [(js "a", JNum (mkNum false 1 0))]))
    by (vm_compute; reflexivity).
  split; [vm_compute; reflexivity |].
  split; [vm_compute; reflexivity |].
  split; [vm_compute; reflexivity |].
  split; [exact Hload |].
  rewrite Hload. discriminate.
Qed.

(** C1 (amended): loading either registry never raises.  It returns [[]]
    when the item is missing, when its text is not valid JSON, and when the
    text parses to a falsy value ([null], [false], [0], the empty string);
    any other valid JSON text is returned as parsed, whatever its shape. *)
Theorem load_never_raises (e : Env) :
  load_contract key_customFeeds e (fst (loadCustomFeeds e))
  /\ load_contract key_deletedArticles e (fst (loadDeletedArticles e)).
Proof.
  split; apply load_meets_contract.
Qed.

Lemma load_never_raises_witness :
  fst (loadCustomFeeds corrupt_env) = Normal (JArr []).
Proof.
  destruct (load_never_raises corrupt_env) as [[_ [_ [Hcorrupt _]]] _].
  apply (Hcorrupt corrupt_text SyntaxError); vm_compute; reflexivity.
Defined.

(** ** What the registry operations do to the two collections *)

Lemma customFeeds_saveCustomFeeds (c : Customizer) :
  customFeeds (saveCustomFeeds c) = customFeeds c.
Proof. reflexivity. Qed.

Lemma customFeeds_addCustomFeed now date feedData (c : Customizer) :
  customFeeds (snd (addCustomFeed now date feedData c))
  = customFeeds c ++ [fst (addCustomFeed now date feedData c)].
Proof. reflexivity. Qed.

Lemma customFeeds_removeCustomFeed feedId (c : Customizer) :
  customFeeds (removeCustomFeed feedId c)
  = filter (fun f => Feed.id f <> feedId) (customFeeds c).
Proof. reflexivity. Qed.

Lemma customFeeds_toggleCustomFeed feedId (c : Customizer) :
  customFeeds (toggleCustomFeed feedId c)
  = match list_find (fun f => Feed.id f = feedId) (customFeeds c) with
    | Some (i, feed) => <[i := Feed.flip feed]> (customFeeds c)
    | None => customFeeds c
    end.
Proof.
  unfold toggleCustomFeed.
  destruct (list_find _ (customFeeds c)) as [[i feed]|]; reflexivity.
Qed.

Lemma deletedArticles_deleteArticle url (c : Customizer) :
  deletedArticles (deleteArticle url c)
  = if includes (deletedArticles c) url then deletedArticles c
    else deletedArticles c ++ [url].
Proof.
  unfold deleteArticle. destruct (includes (deletedArticles c) url); reflexivity.
Qed.

Lemma deletedArticles_restoreArticle url (c : Customizer) :
  deletedArticles (restoreArticle url c)
  = filter (fun u => u <> url) (deletedArticles c).
Proof. reflexivity. Qed.

Lemma includes_true (l : list jsstring) (x : jsstring) :
  includes l x = true <-> x ∈ l.
Proof. unfold includes. apply bool_decide_eq_true. Qed.

Lemma includes_false (l : list jsstring) (x : jsstring) :
  includes l x = false <-> x ∉ l.
Proof. unfold includes. apply bool_decide_eq_false. Qed.

Lemma flip_flip (f : Feed.t) : Feed.flip (Feed.flip f) = f.
Proof. destruct f as [i n u c d e]. unfold Feed.flip. simpl. by rewrite negb_involutive. Qed.

Lemma id_flip (f : Feed.t) : Feed.id (Feed.flip f) = Feed.id f.
Proof. reflexivity. Qed.

(** After the first match is flipped, [find] stops at the same index. *)
Lemma list_find_after_flip feedId (l : list Feed.t) i feed :
  list_find (fun f => Feed.id f = feedId) l = Some (i, feed) ->
  list_find (fun f => Feed.id f = feedId) (<[i := Feed.flip feed]> l)
  = Some (i, Feed.flip feed).
Proof.
  intros Hfind. apply list_find_Some in Hfind as (Hi & Hid & Hbefore).
  apply list_find_Some. split_and!.
  - apply list_lookup_insert_eq. by eapply lookup_lt_Some.
  - by rewrite id_flip.
  - intros j y Hj Hlt. rewrite list_lookup_insert_ne in Hj by lia.
    by eapply Hbefore.
Qed.

(** ** The deletion registry *)

(** C5: after [deleteArticle(url)] the URL is reported deleted, after
    [restoreArticle(url)] it is not, and deleting twice a URL that was not in
    the collection leaves it there exactly once, the size grown by one. *)
Theorem deletion_registry_membership (url : jsstring) (c : Customizer) :
  isArticleDeleted url (deleteArticle url c) = true
  /\ isArticleDeleted url (restoreArticle url c) = false
  /\ (isArticleDeleted url c = false ->
      let c2 := deleteArticle url (deleteArticle url c) in
      length (filter (fun u => u = url) (deletedArticles c2)) = 1%nat
      /\ length (deletedArticles c2) = S (length (deletedArticles c))).
Proof.
  unfold isArticleDeleted. split_and!.
  - apply includes_true. rewrite deletedArticles_deleteArticle.
    destruct (includes (deletedArticles c) url) eqn:Hin.
    + by apply includes_true.
    + set_solver.
  - apply includes_false. rewrite deletedArticles_restoreArticle.
    rewrite list_elem_of_filter. intros [Hne _]. by apply Hne.
  - intros Hout. cbv zeta.
    assert (Hnot : url ∉ deletedArticles c) by by apply includes_false.
    assert (Hone : deletedArticles (deleteArticle url c) = deletedArticles c ++ [url])
      by by rewrite deletedArticles_deleteArticle, Hout.
    assert (Htwo : deletedArticles (deleteArticle url (deleteArticle url c))
                   = deletedArticles c ++ [url]).
    { rewrite deletedArticles_deleteArticle, Hone.
      assert (includes (deletedArticles c ++ [url]) url = true) as ->
        by (apply includes_true; set_solver).
      done. }
    rewrite Htwo. split.
    + rewrite filter_app.
      assert (filter (fun u => u = url) (deletedArticles c) = []) as ->.
      { clear -Hnot. induction (deletedArticles c) as [|x l IH]; [done|].
        rewrite filter_cons_False by set_solver. apply IH. set_solver. }
      by rewrite filter_cons_True.
    + rewrite length_app. simpl. lia.
Qed.

Lemma deletion_registry_membership_witness :
  length (deletedArticles
            (deleteArticle (js "https://news.example.com/a1")
               (deleteArticle (js "https://news.example.com/a1") one_deleted)))
  = 2%nat.
Proof.
  destruct (deletion_registry_membership (js "https://news.example.com/a1") one_deleted)
    as (_ & _ & Htwice).
  destruct Htwice as [_ Hlen]; [vm_compute; reflexivity | exact Hlen].
Defined.

(** ** Toggling and removing feeds *)

(** C6: toggling the same id twice restores the collection, every field of
    every entry included. *)
Theorem toggle_twice (feedId : Z) (c : Customizer) :
  customFeeds (toggleCustomFeed feedId (toggleCustomFeed feedId c)) = customFeeds c.
Proof.
  rewrite !customFeeds_toggleCustomFeed.
  destruct (list_find _ (customFeeds c)) as [[i feed]|] eqn:Hfind.
  - rewrite (list_find_after_flip _ _ _ _ Hfind).
    rewrite list_insert_insert_eq, flip_flip.
    apply list_insert_id. by apply list_find_Some in Hfind as (? & _).
  - by rewrite Hfind.
Qed.

Lemma filter_id_twice feedId (l : list Feed.t) :
  filter (fun f => Feed.id f <> feedId) (filter (fun f => Feed.id f <> feedId) l)
  = filter (fun f => Feed.id f <> feedId) l.
Proof.
  rewrite list_filter_filter. apply list_filter_iff.
  intros x. split; [by intros [? _] | by intros ?; split].
Qed.

Lemma filter_id_absent feedId (l : list Feed.t) :
  Forall (fun f => Feed.id f <> feedId) l ->
  filter (fun f => Feed.id f <> feedId) l = l.
Proof.
  induction 1 as [|x l Hx _ IH]; [done|].
  by rewrite filter_cons_True, IH.
Qed.

Lemma set_count_twice (b : option jsstring) (n : nat) :
  set_count (set_count b n) n = set_count b n.
Proof. by destruct b. Qed.

(** C7: removing the same id twice gives the same collection (and the same
    page state altogether) as removing it once, and removing an id that no
    entry carries leaves the collection as it was. *)
Theorem remove_idempotent (feedId : Z) (c : Customizer) :
  removeCustomFeed feedId (removeCustomFeed feedId c) = removeCustomFeed feedId c
  /\ (Forall (fun f => Feed.id f <> feedId) (customFeeds c) ->
      customFeeds (removeCustomFeed feedId c) = customFeeds c).
Proof.
  split.
  - destruct c as [feeds urls [cc dc sb md nv uv cv] [ls co al cl]].
    unfold removeCustomFeed, saveCustomFeeds, updateStats, with_dom, with_env,
      with_customFeeds, setItem. simpl.
    rewrite filter_id_twice, insert_insert_eq, !set_count_twice. reflexivity.
  - intros Habsent. rewrite customFeeds_removeCustomFeed.
    by apply filter_id_absent.
Qed.

Lemma remove_idempotent_witness :
  customFeeds (removeCustomFeed 3000 twins) = [feed_c; feed_a; feed_b].
Proof.
  destruct (remove_idempotent 3000 twins) as [_ Habsent].
  apply Habsent. repeat constructor; vm_compute; discriminate.
Defined.

Lemma list_find_first_match feedId (before after : list Feed.t) (first : Feed.t) :
  Forall (fun f => Feed.id f <> feedId) before ->
  Feed.id first = feedId ->
  list_find (fun f => Feed.id f = feedId) (before ++ first :: after)
  = Some (length before, first).
Proof.
  intros Hbefore Hfirst. apply list_find_Some. split_and!.
  - by apply list_lookup_middle.
  - done.
  - intros j y Hj Hlt Hy. rewrite lookup_app_l in Hj by done.
    rewrite Forall_lookup in Hbefore. by eapply Hbefore.
Qed.

(** C10: when several entries carry the id, [toggleCustomFeed] flips the
    first of them in insertion order and leaves the later ones as they are,
    while [removeCustomFeed] removes every one of them. *)
Theorem toggle_first_remove_all
    (feedId : Z) (c : Customizer) (before after : list Feed.t) (first : Feed.t) :
  customFeeds c = before ++ first :: after ->
  Forall (fun f => Feed.id f <> feedId) before ->
  Feed.id first = feedId ->
  customFeeds (toggleCustomFeed feedId c)
  = before
    ++ Feed.mk (Feed.id first) (Feed.name first) (Feed.url first)
               (Feed.category first) (Feed.dateAdded first)
               (negb (Feed.enabled first))
    :: after
  /\ customFeeds (removeCustomFeed feedId c)
     = before ++ filter (fun f => Feed.id f <> feedId) after
  /\ Forall (fun f => Feed.id f <> feedId) (customFeeds (removeCustomFeed feedId c)).
Proof.
  intros Hfeeds Hbefore Hfirst. split_and!.
  - rewrite customFeeds_toggleCustomFeed, Hfeeds.
    rewrite (list_find_first_match _ _ _ _ Hbefore Hfirst).
    replace (length before) with (length before + 0)%nat by lia.
    by rewrite insert_app_r.
  - rewrite customFeeds_removeCustomFeed, Hfeeds.
    rewrite filter_app, filter_cons_False by (intros Hne; by apply Hne).
    by rewrite filter_id_absent.
  - rewrite customFeeds_removeCustomFeed. apply Forall_forall.
    intros f Hf. by apply list_elem_of_filter in Hf as [Hne _].
Qed.

Lemma toggle_first_remove_all_witness :
  customFeeds (toggleCustomFeed 1000 twins)
  = [feed_c;
     Feed.mk 1000 (js "A") (js "https://a.example/rss") (js "General")
             (toISOString 1000) false;
     feed_b]
  /\ customFeeds (removeCustomFeed 1000 twins) = [feed_c].
Proof.
  destruct (toggle_first_remove_all 1000 twins [feed_c] [feed_b] feed_a)
    as (Htoggle & Hremove & _).
  - reflexivity.
  - repeat constructor. vm_compute. discriminate.
  - reflexivity.
  - split; [exact Htoggle | exact Hremove].
Defined.

(** ** Uniqueness of ids along a session *)

Lemma ids_toggle feedId (c : Customizer) : ids (toggleCustomFeed feedId c) = ids c.
Proof.
  unfold ids. rewrite customFeeds_toggleCustomFeed.
  destruct (list_find _ (customFeeds c)) as [[i feed]|] eqn:Hfind; [|done].
  apply list_find_Some in Hfind as (Hi & _).
  rewrite list_fmap_insert, id_flip. apply list_insert_id.
  by rewrite list_lookup_fmap, Hi.
Qed.

Lemma ids_remove feedId (c : Customizer) :
  ids (removeCustomFeed feedId c) = filter (fun i => i <> feedId) (ids c).
Proof.
  unfold ids. rewrite customFeeds_removeCustomFeed.
  induction (customFeeds c) as [|f l IH]; [done|].
  rewrite fmap_cons, !filter_cons.
  destruct (decide (Feed.id f <> feedId)); by rewrite ?fmap_cons, IH.
Qed.

Lemma ids_add now date feedData (c : Customizer) :
  ids (snd (addCustomFeed now date feedData c)) = ids c ++ [now].
Proof. unfold ids. by rewrite customFeeds_addCustomFeed, fmap_app. Qed.

Lemma run_keeps_ids_unique (ops : list FeedOp) :
  forall c : Customizer,
    NoDup (ids c) ->
    (forall i, i ∈ ids c -> i ∉ add_readings ops) ->
    NoDup (add_readings ops) ->
    NoDup (ids (run ops c)).
Proof.
  induction ops as [|op ops IH]; intros c Hnodup Hfresh Hreadings; [done|].
  change (run (op :: ops) c) with (run ops (apply_op c op)).
  destruct op as [now date feedData|feedId|feedId].
  - change (apply_op c (OpAdd now date feedData))
      with (snd (addCustomFeed now date feedData c)).
    change (add_readings (OpAdd now date feedData :: ops))
      with (now :: add_readings ops) in *.
    apply NoDup_cons in Hreadings as [Hnow Hrest].
    apply IH; [| |done]; rewrite ids_add.
    + apply NoDup_app. split_and!; [done| |apply NoDup_singleton].
      intros i Hi Hi'. apply list_elem_of_singleton in Hi' as ->.
      apply (Hfresh now Hi). by left.
    + intros i [Hi|Hi]%elem_of_app.
      * intros Hin. apply (Hfresh i Hi). by right.
      * by apply list_elem_of_singleton in Hi as ->.
  - change (apply_op c (OpRemove feedId)) with (removeCustomFeed feedId c).
    change (add_readings (OpRemove feedId :: ops)) with (add_readings ops) in *.
    apply IH; [| |done]; rewrite ids_remove.
    + by apply NoDup_filter.
    + intros i Hi. apply Hfresh. by apply list_elem_of_filter in Hi as [_ Hi].
  - change (apply_op c (OpToggle feedId)) with (toggleCustomFeed feedId c).
    change (add_readings (OpToggle feedId :: ops)) with (add_readings ops) in *.
    apply IH; [| |done]; by rewrite ids_toggle.
Qed.

(** C2, as stated, fails: two [add] calls that read the same millisecond
    from the clock create two entries with the same id. *)
Lemma same_millisecond_same_id :
  customFeeds fresh_page = []
  /\ ids (run [OpAdd 1000 1000 data_a; OpAdd 1000 1000 data_b] fresh_page)
     = [1000; 1000]
  /\ ~ NoDup (ids (run [OpAdd 1000 1000 data_a; OpAdd 1000 1000 data_b] fresh_page)).
Proof.
  split; [reflexivity|]. split; [reflexivity|].
  change (ids (run [OpAdd 1000 1000 data_a; OpAdd 1000 1000 data_b] fresh_page))
    with [1000; 1000].
  intros Hnodup. apply NoDup_cons in Hnodup as [Hnotin _].
  apply Hnotin. by left.
Qed.

(** C2 (amended): along every sequence of [add], [remove] and [toggle]
    calls that starts from the empty collection, the ids in the collection
    are pairwise distinct provided the [Date.now()] readings taken by the
    [add] calls are pairwise distinct. *)
Theorem ids_unique_for_distinct_readings (ops : list FeedOp) (c : Customizer) :
  customFeeds c = [] ->
  NoDup (add_readings ops) ->
  NoDup (ids (run ops c)).
Proof.
  intros Hempty Hreadings. apply run_keeps_ids_unique; [| |done].
  - unfold ids. rewrite Hempty. apply NoDup_nil_2.
  - unfold ids. rewrite Hempty. intros i Hi. by apply elem_of_nil in Hi.
Qed.

Lemma ids_unique_for_distinct_readings_witness :
  NoDup (ids (run [OpAdd 1000 1000 data_a; OpToggle 1000; OpAdd 1001 1001 data_b;
                   OpRemove 1000; OpAdd 1002 1003 data_a] fresh_page)).
Proof.
  apply ids_unique_for_distinct_readings.
  - reflexivity.
  - change (NoDup [1000; 1001; 1002]).
    repeat (apply NoDup_cons; split; [intros Hin; repeat (apply elem_of_cons in Hin as [Hin|Hin]; [discriminate|]); by apply elem_of_nil in Hin|]).
    apply NoDup_nil_2.
Defined.

(** ** Adding a feed *)

(** C4, as stated, fails: an [add] that reads from the clock the millisecond
    at which an existing entry was created returns an entry with the id of
    that entry. *)
Lemma add_repeats_existing_id :
  feed_a ∈ customFeeds one_feed
  /\ Feed.id (fst (addCustomFeed 1000 1000 data_b one_feed)) = Feed.id feed_a.
Proof.
  split; [by left | reflexivity].
Qed.

(** C4 (amended): [add] appends to the collection and returns an entry with
    the given name and url, the given category or [General] when it is
    missing or empty, [enabled] set, a [dateAdded] that renders a clock
    reading not earlier than the invocation, and as id the [Date.now()]
    reading of the call; the id differs from every existing id whenever no
    existing entry carries that reading (so whenever all of them were
    created at earlier milliseconds).  The new collection is persisted. *)
Theorem addCustomFeed_entry
    (invoked now date : Z) (feedData : FeedData.t) (c : Customizer) :
  invoked <= date ->
  let feed := fst (addCustomFeed now date feedData c) in
  let c' := snd (addCustomFeed now date feedData c) in
  customFeeds c' = customFeeds c ++ [feed]
  /\ Feed.name feed = FeedData.name feedData
  /\ Feed.url feed = FeedData.url feedData
  /\ (forall cat, FeedData.category feedData = Some cat -> cat <> [] ->
      Feed.category feed = cat)
  /\ (FeedData.category feedData = None \/ FeedData.category feedData = Some [] ->
      Feed.category feed = js "General")
  /\ Feed.enabled feed = true
  /\ (exists t, invoked <= t /\ Feed.dateAdded feed = toISOString t)
  /\ Feed.id feed = now
  /\ (Forall (fun g => Feed.id g < now) (customFeeds c) ->
      Forall (fun g => Feed.id g <> Feed.id feed) (customFeeds c))
  /\ (Forall (fun g => Feed.id g <> now) (customFeeds c) ->
      Forall (fun g => Feed.id g <> Feed.id feed) (customFeeds c))
  /\ getItem key_customFeeds (env c') = Some (JSON_stringify_feeds (customFeeds c')).
Proof.
  intros Hclock feed c'. subst feed c'. split_and!; try reflexivity.
  - intros cat Hcat Hne. simpl. rewrite Hcat. by destruct cat.
  - intros [Hcat|Hcat]; simpl; by rewrite Hcat.
  - by exists date.
  - intros Holder. eapply Forall_impl; [exact Holder|].
    intros g Hg. simpl in *. lia.
  - done.
  - unfold getItem. simpl. apply lookup_insert_eq.
Qed.

Lemma addCustomFeed_entry_witness :
  Feed.category (fst (addCustomFeed 2000 2001 data_a one_feed)) = js "General"
  /\ Forall (fun g => Feed.id g <> 2000) (customFeeds one_feed).
Proof.
  destruct (addCustomFeed_entry 2000 2000 2001 data_a one_feed)
    as (_ & _ & _ & _ & Hgeneral & _ & _ & _ & Hfresh & _).
  - lia.
  - split.
    + apply Hgeneral. left. reflexivity.
    + apply Hfresh. repeat constructor.
Defined.

(** ** The add-feed form *)

Lemma is_empty_true (s : jsstring) : is_empty s = true <-> s = [].
Proof. by destruct s. Qed.

Lemma is_empty_false (s : jsstring) : is_empty s = false <-> s <> [].
Proof. by destruct s. Qed.

(** C3: when the trimmed name or the trimmed URL is empty, or the host's URL
    parser rejects the trimmed URL, the handler only shows a message: the
    feed collection and the persisted store stay as they were.  Otherwise
    exactly one entry, with the trimmed name and URL, is appended and the
    new collection is persisted. *)
Theorem handleAddFeed_validates
    (URL_parses : jsstring -> bool) (now date : Z) (c : Customizer) :
  let name := trim (feed_name_value (dom c)) in
  let url := trim (feed_url_value (dom c)) in
  let c' := handleAddFeed URL_parses now date c in
  (name = [] \/ url = [] \/ URL_parses url = false ->
   customFeeds c' = customFeeds c
   /\ localStorage (env c') = localStorage (env c)
   /\ exists msg, msg <> [] /\ alerts (env c') = alerts (env c) ++ [msg])
  /\ (name = [] \/ url = [] -> c' = alert_in msg_required_fields c)
  /\ (name <> [] -> url <> [] -> URL_parses url = false ->
      c' = alert_in msg_invalid_url c)
  /\ (name <> [] -> url <> [] -> URL_parses url = true ->
      exists feed,
        customFeeds c' = customFeeds c ++ [feed]
        /\ Feed.name feed = name /\ Feed.url feed = url
        /\ localStorage (env c')
           = <[key_customFeeds := JSON_stringify_feeds (customFeeds c ++ [feed])]>
               (localStorage (env c))).
Proof.
  intros name url c'.
  assert (Hrequired : name = [] \/ url = [] -> c' = alert_in msg_required_fields c).
  { intros Hempty. subst c'. unfold handleAddFeed. fold name url.
    assert (is_empty name || is_empty url = true) as ->; [|done].
    apply orb_true_iff. destruct Hempty as [H|H]; [left|right];
      by apply is_empty_true. }
  assert (Hinvalid : name <> [] -> url <> [] -> URL_parses url = false ->
                     c' = alert_in msg_invalid_url c).
  { intros Hname Hurl Hparse. subst c'. unfold handleAddFeed, new_URL. fold name url.
    apply is_empty_false in Hname, Hurl. by rewrite Hname, Hurl, Hparse. }
  split_and!; [|done|done|].
  - intros Habort.
    assert (Hcases : c' = alert_in msg_required_fields c
                     \/ c' = alert_in msg_invalid_url c).
    { destruct name as [|n0 name'] eqn:Hn; [left; apply Hrequired; by left|].
      destruct url as [|u0 url'] eqn:Hu; [left; apply Hrequired; by right|].
      destruct Habort as [?|[?|Hparse]]; [done|done|].
      right. by apply Hinvalid. }
    destruct Hcases as [-> | ->]; (split_and!; [done|done|]).
    + exists msg_required_fields. split; [by vm_compute|done].
    + exists msg_invalid_url. split; [by vm_compute|done].
  - intros Hname Hurl Hparse. subst c'. unfold handleAddFeed, new_URL. fold name url.
    apply is_empty_false in Hname, Hurl. rewrite Hname, Hurl, Hparse. simpl.
    eexists. split_and!; reflexivity.
Qed.

Lemma handleAddFeed_validates_witness :
  customFeeds (handleAddFeed accepts_example 1000 1000 blank_url_form) = []
  /\ length (customFeeds (handleAddFeed accepts_example 1000 1000 filled_form)) = 1%nat.
Proof.
  split.
  - destruct (handleAddFeed_validates accepts_example 1000 1000 blank_url_form)
      as (Habort & _).
    destruct Habort as (Hsame & _); [right; left; vm_compute; reflexivity|].
    exact Hsame.
  - destruct (handleAddFeed_validates accepts_example 1000 1000 filled_form)
      as (_ & _ & _ & Hadd).
    destruct Hadd as (feed & Hfeeds & _);
      [vm_compute; discriminate | vm_compute; discriminate | vm_compute; reflexivity |].
    rewrite Hfeeds. reflexivity.
Defined.

(** ** The export listing *)
















(** ** The count badges *)

Lemma stats_badge_updateStats (c : Customizer) :
  stats_badge (dom (updateStats c)) = stats_badge (dom c).
Proof. reflexivity. Qed.

(** No registry operation rewrites the [Custom Feeds Active] badge. *)
Lemma stats_badge_never_refreshed (op : FeedOp) (c : Customizer) :
  stats_badge (dom (apply_op c op)) = stats_badge (dom c).
Proof.
  destruct op as [now date feedData|feedId|feedId]; simpl; try reflexivity.
  unfold toggleCustomFeed.
  destruct (list_find _ (customFeeds c)) as [[i feed]|]; reflexivity.
Qed.

(** The custom-feed counter written by [updateStats] does follow the
    collection: once it shows the size of the collection it keeps doing so
    after every registry operation. *)
Lemma custom_count_in_sync (op : FeedOp) (c : Customizer) :
  custom_count (dom c) = Some (Number_toString (Z.of_nat (length (customFeeds c)))) ->
  custom_count (dom (apply_op c op))
  = Some (Number_toString (Z.of_nat (length (customFeeds (apply_op c op))))).
Proof.
  intros Hshown. destruct op as [now date feedData|feedId|feedId]; simpl.
  - by rewrite Hshown.
  - by rewrite Hshown.
  - unfold toggleCustomFeed.
    destruct (list_find _ (customFeeds c)) as [[i feed]|]; [|done].
    simpl. by rewrite Hshown.
Qed.

(** C9 fails on the code: on a page built over an empty store, the first
    [add] brings the custom-feed counter to 1 but leaves the
    [Custom Feeds Active] badge at the 0 it was rendered with, although one
    entry is now enabled. *)
Theorem active_badge_stale_after_add (selector_parses : jsstring -> bool) :
  exists c0 : Customizer,
    new_SeniorNewsCustomizer selector_parses empty_env = Some (Normal c0)
    /\ let c1 := apply_op c0 (OpAdd 1000 1000 data_a) in
       custom_count (dom c1) = Some (js "1")
       /\ length (customFeeds c1) = 1%nat
       /\ enabledCount (customFeeds c1) = 1%nat
       /\ stats_badge (dom c1) = Some (stats_badge_text 0)
       /\ stats_badge (dom c1) <> Some (stats_badge_text (enabledCount (customFeeds c1))).
Proof.
  eexists. split; [vm_compute; reflexivity|].
  cbv zeta. split_and!; try (vm_compute; reflexivity).
  vm_compute. discriminate.
Qed.

(** ** Reading back what [JSON.stringify] wrote *)

Lemma hex_value_hex_digit (d : Z) :
  0 <= d < 16 -> hex_value (hex_digit d) = Some d.
Proof.
  intros Hd.
  assert (Hcases : d = 0 \/ d = 1 \/ d = 2 \/ d = 3 \/ d = 4 \/ d = 5 \/ d = 6
                   \/ d = 7 \/ d = 8 \/ d = 9 \/ d = 10 \/ d = 11 \/ d = 12
                   \/ d = 13 \/ d = 14 \/ d = 15) by lia.
  repeat (destruct Hcases as [-> | Hcases]; [reflexivity|]).
  subst d. reflexivity.
Qed.

Lemma lex_step_hex (acc : jsstring) (n : nat) (val c d : Z) (p : PState) :
  hex_value c = Some d ->
  lex_step (LHex acc (S n) val, p) c
  = match n with
    | O => (LStr ((val * 16 + d) :: acc), p)
    | S _ => (LHex acc n (val * 16 + d), p)
    end.
Proof. intros Hc. simpl. rewrite Hc. by destruct n. Qed.

Lemma lex_unicode_escape (acc : jsstring) (c : Z) (p : PState) :
  is_code_unit c ->
  fold_left lex_step (unicode_escape c) (LStr acc, p) = (LStr (c :: acc), p).
Proof.
  intros Hc. unfold is_code_unit in Hc. unfold unicode_escape.
  cbn [fold_left].
  change (lex_step (LStr acc, p) 92) with (LEsc acc, p).
  change (lex_step (LEsc acc, p) (ch "u")) with (LHex acc 4 0, p).
  rewrite (lex_step_hex acc 3 0 _ (c / 4096 mod 16))
    by (apply hex_value_hex_digit; apply Z.mod_pos_bound; lia).
  rewrite (lex_step_hex acc 2 _ _ (c / 256 mod 16))
    by (apply hex_value_hex_digit; apply Z.mod_pos_bound; lia).
  rewrite (lex_step_hex acc 1 _ _ (c / 16 mod 16))
    by (apply hex_value_hex_digit; apply Z.mod_pos_bound; lia).
  rewrite (lex_step_hex acc 0 _ _ (c mod 16))
    by (apply hex_value_hex_digit; apply Z.mod_pos_bound; lia).
  do 2 f_equal. f_equal.
  pose proof (Z.div_mod c 16 ltac:(lia)) as H1.
  pose proof (Z.mod_pos_bound c 16 ltac:(lia)) as B1.
  pose proof (Z.div_mod (c / 16) 16 ltac:(lia)) as H2.
  pose proof (Z.mod_pos_bound (c / 16) 16 ltac:(lia)) as B2.
  pose proof (Z.div_mod (c / 16 / 16) 16 ltac:(lia)) as H3.
  pose proof (Z.mod_pos_bound (c / 16 / 16) 16 ltac:(lia)) as B3.
  assert (H4 : c / 16 / 16 / 16 < 16).
  { rewrite !Z.div_div by lia. apply Z.div_lt_upper_bound; lia. }
  assert (H5 : 0 <= c / 16 / 16 / 16).
  { rewrite !Z.div_div by lia. apply Z.div_pos; lia. }
  rewrite (Z.mod_small (c / 4096) 16)
    by (replace 4096 with (16 * 16 * 16) by lia; rewrite <- !Z.div_div by lia; lia).
  replace (c / 4096) with (c / 16 / 16 / 16) by (rewrite !Z.div_div by lia; reflexivity).
  replace (c / 256) with (c / 16 / 16) by (rewrite !Z.div_div by lia; reflexivity).
  lia.
Qed.

Lemma lex_step_plain (acc : jsstring) (c : Z) (p : PState) :
  32 <= c -> c <> 34 -> c <> 92 ->
  lex_step (LStr acc, p) c = (LStr (c :: acc), p).
Proof.
  intros Hc H34 H92. simpl.
  destruct (Z.eqb_spec c 34); [done|]. destruct (Z.eqb_spec c 92); [done|].
  destruct (Z.ltb_spec c 32); [lia|]. reflexivity.
Qed.

Lemma lex_quote_unit (acc : jsstring) (c : Z) (p : PState) :
  is_code_unit c ->
  fold_left lex_step (quote_unit c) (LStr acc, p) = (LStr (c :: acc), p).
Proof.
  intros Hc. unfold quote_unit.
  destruct (Z.eqb_spec c 8) as [->|?]; [reflexivity|].
  destruct (Z.eqb_spec c 9) as [->|?]; [reflexivity|].
  destruct (Z.eqb_spec c 10) as [->|?]; [reflexivity|].
  destruct (Z.eqb_spec c 12) as [->|?]; [reflexivity|].
  destruct (Z.eqb_spec c 13) as [->|?]; [reflexivity|].
  destruct (Z.eqb_spec c 34) as [->|?]; [reflexivity|].
  destruct (Z.eqb_spec c 92) as [->|?]; [reflexivity|].
  destruct (Z.ltb_spec c 32); [by apply lex_unicode_escape|].
  cbn [fold_left]. by apply lex_step_plain.
Qed.

Lemma lex_quote_units_bounded (n : nat) (p : PState) :
  forall (s acc : jsstring),
    (length s <= n)%nat -> well_formed_string s ->
    fold_left lex_step (quote_units s) (LStr acc, p) = (LStr (rev s ++ acc), p).
Proof.
  induction n as [|n IH]; intros s acc Hlen Hs.
  - destruct s; [reflexivity | simpl in Hlen; lia].
  - destruct s as [|c r]; [reflexivity|].
    apply Forall_cons in Hs as [Hc Hr]. simpl in Hlen.
    assert (Hstep : forall text,
               fold_left lex_step text (LStr acc, p) = (LStr (c :: acc), p) ->
               fold_left lex_step (text ++ quote_units r) (LStr acc, p)
               = (LStr (rev (c :: r) ++ acc), p)).
    { intros text Htext. rewrite fold_left_app, Htext, IH by (done || lia).
      simpl. by rewrite <- app_assoc. }
    cbn [quote_units].
    destruct (is_high_surrogate c) eqn:Hhigh.
    + unfold is_high_surrogate in Hhigh. apply andb_true_iff in Hhigh as [H1 H2].
      apply Z.leb_le in H1, H2.
      destruct r as [|c' r']; [by apply lex_unicode_escape|].
      destruct (is_low_surrogate c') eqn:Hlow.
      * unfold is_low_surrogate in Hlow. apply andb_true_iff in Hlow as [H3 H4].
        apply Z.leb_le in H3, H4.
        apply Forall_cons in Hr as [Hc' Hr']. simpl in Hlen.
        cbn [fold_left]. rewrite !lex_step_plain by lia.
        rewrite IH by (done || lia). simpl. by rewrite <- !app_assoc.
      * apply Hstep. by apply lex_unicode_escape.
    + destruct (is_low_surrogate c).
      * apply Hstep. by apply lex_unicode_escape.
      * apply Hstep. by apply lex_quote_unit.
Qed.

(** A quoted string is read back as one string token. *)
Lemma lex_QuoteJSONString (s rest : jsstring) (p : PState) :
  well_formed_string s ->
  fold_left lex_step (QuoteJSONString s ++ rest) (LIdle, p)
  = fold_left lex_step rest (LIdle, parse_step p (TLit (JStr s))).
Proof.
  intros Hs. unfold QuoteJSONString.
  rewrite <- !app_assoc. cbn [app fold_left].
  change (lex_step (LIdle, p) 34) with (LStr [], p).
  rewrite fold_left_app, (lex_quote_units_bounded (length s)) by done.
  cbn [app fold_left]. rewrite app_nil_r.
  change (lex_step (LStr (rev s), p) 34)
    with (LIdle, parse_step p (TLit (JStr (rev (rev s))))).
  by rewrite rev_involutive.
Qed.

Section ArrayOfElements.

Context {A : Type} (ok : A -> Prop) (text : A -> jsstring) (val : A -> JsValue).

Hypothesis lex_element : forall (a : A) (rest : jsstring) (stk : list Cont),
  ok a ->
  fold_left lex_step (text a ++ rest) (LIdle, SValue stk)
  = fold_left lex_step rest (LIdle, complete (val a) stk).

Hypothesis lex_first_element : forall (a : A) (rest : jsstring) (stk : list Cont),
  ok a ->
  fold_left lex_step (text a ++ rest) (LIdle, SArrStart stk)
  = fold_left lex_step (text a ++ rest) (LIdle, SValue (CArr [] :: stk)).

Lemma lex_elements (r : list A) :
  forall (x : A) (acc : list JsValue) (stk : list Cont) (rest : jsstring),
    Forall ok (x :: r) ->
    fold_left lex_step (join [44] (List.map text (x :: r)) ++ 93 :: rest)
              (LIdle, SValue (CArr acc :: stk))
    = fold_left lex_step rest
                (LIdle, complete (JArr (rev acc ++ List.map val (x :: r))) stk).
Proof.
  induction r as [|y r IH]; intros x acc stk rest [Hx Hr]%Forall_cons.
  - cbn [List.map join]. rewrite lex_element by done. cbn [fold_left complete].
    change (lex_step (LIdle, SArrAfter (val x :: acc) stk) 93)
      with (LIdle, complete (JArr (rev (val x :: acc))) stk).
    reflexivity.
  - change (join [44] (List.map text (x :: y :: r)))
      with (text x ++ [44] ++ join [44] (List.map text (y :: r))).
    rewrite <- !app_assoc, lex_element by done. cbn [app fold_left complete].
    change (lex_step (LIdle, SArrAfter (val x :: acc) stk) 44)
      with (LIdle, SValue (CArr (val x :: acc) :: stk)).
    rewrite IH by done. simpl. by rewrite <- app_assoc.
Qed.

Lemma lex_array (l : list A) (stk : list Cont) :
  Forall ok l ->
  fold_left lex_step (js "[" ++ join [44] (List.map text l) ++ js "]")
            (LIdle, SValue stk)
  = (LIdle, complete (JArr (List.map val l)) stk).
Proof.
  intros Hl. change (js "[") with [91]. change (js "]") with [93].
  cbn [app fold_left].
  change (lex_step (LIdle, SValue stk) 91) with (LIdle, SArrStart stk).
  destruct l as [|x r]; [reflexivity|].
  assert (Hx : ok x) by by apply Forall_cons in Hl as [? _].
  assert (Hfirst : join [44] (List.map text (x :: r))
                   = text x ++ match r with
                               | [] => []
                               | y :: r' => [44] ++ join [44] (List.map text (y :: r'))
                               end).
  { destruct r; [by rewrite app_nil_r | reflexivity]. }
  pose proof (lex_elements r x [] stk [] Hl) as Hrest.
  rewrite Hfirst in *. rewrite <- app_assoc in *.
  rewrite lex_first_element by done. exact Hrest.
Qed.

End ArrayOfElements.

Lemma decode_all_map {A : Type} (decode : JsValue -> option A) (val : A -> JsValue)
    (l : list A) :
  Forall (fun a => decode (val a) = Some a) l ->
  decode_all decode (List.map val l) = Some l.
Proof.
  induction 1 as [|a l Ha _ IH]; [done|]. simpl. by rewrite Ha, IH.
Qed.

Lemma JSON_parse_stringify_urls (l : list jsstring) :
  Forall well_formed_string l ->
  JSON_parse (JSON_stringify_urls l) = Normal (JArr (List.map JStr l)).
Proof.
  intros Hl. unfold JSON_parse, JSON_stringify_urls.
  rewrite (lex_array well_formed_string QuoteJSONString JStr).
  - reflexivity.
  - intros s rest stk Hs. by rewrite lex_QuoteJSONString.
  - intros s rest stk Hs. by rewrite !lex_QuoteJSONString.
  - exact Hl.
Qed.

(** *** Numbers *)

Lemma digits_value_snoc (ds : jsstring) (d : Z) :
  digits_value (ds ++ [d]) = digits_value ds * 10 + (d - 48).
Proof. unfold digits_value. by rewrite fold_left_app. Qed.

Lemma is_digit_true (c : Z) : is_digit c = true <-> 48 <= c <= 57.
Proof. unfold is_digit. rewrite andb_true_iff, !Z.leb_le. reflexivity. Qed.

Lemma pos_digits_S (f : nat) (n : Z) (acc : jsstring) :
  pos_digits (S f) n acc
  = if n <? 10 then (48 + n mod 10) :: acc
    else pos_digits f (n / 10) ((48 + n mod 10) :: acc).
Proof. reflexivity. Qed.

(** The digits [pos_digits] writes: all of them digits, the value they
    denote, and no leading zero except for zero itself. *)
Lemma pos_digits_spec (f : nat) :
  forall (n : Z) (acc : jsstring),
    0 <= n < 2 ^ Z.of_nat (S f) ->
    exists d0 ds,
      pos_digits (S f) n acc = (d0 :: ds) ++ acc
      /\ Forall (fun c => is_digit c = true) (d0 :: ds)
      /\ digits_value (d0 :: ds) = n
      /\ (d0 = 48 -> ds = []).
Proof.
  induction f as [|f IH]; intros n acc Hn.
  - assert (n < 10) by (change (2 ^ Z.of_nat 1) with 2 in Hn; lia).
    exists (48 + n mod 10), []. rewrite pos_digits_S.
    destruct (Z.ltb_spec n 10); [|lia].
    rewrite Z.mod_small by lia. split_and!; [done| |unfold digits_value; simpl; lia|done].
    repeat constructor. apply is_digit_true. lia.
  - rewrite pos_digits_S. destruct (Z.ltb_spec n 10) as [Hsmall|Hbig].
    + exists (48 + n mod 10), []. rewrite Z.mod_small by lia.
      split_and!; [done| |unfold digits_value; simpl; lia|done].
      repeat constructor. apply is_digit_true. lia.
    + assert (Hq : 0 <= n / 10 < 2 ^ Z.of_nat (S f)).
      { split; [apply Z.div_pos; lia|].
        apply Z.div_lt_upper_bound; [lia|].
        replace (Z.of_nat (S (S f))) with (Z.of_nat (S f) + 1) in Hn by lia.
        rewrite Z.pow_add_r in Hn by lia. lia. }
      destruct (IH (n / 10) ((48 + n mod 10) :: acc) Hq)
        as (d0 & ds & Heq & Hdigits & Hvalue & Hlead).
      exists d0, (ds ++ [48 + n mod 10]).
      pose proof (Z.mod_pos_bound n 10 ltac:(lia)) as Hmod.
      split_and!.
      * rewrite Heq. simpl. by rewrite <- app_assoc.
      * rewrite app_comm_cons. apply Forall_app. split; [done|].
        repeat constructor. apply is_digit_true. lia.
      * rewrite app_comm_cons, digits_value_snoc, Hvalue.
        pose proof (Z.div_mod n 10 ltac:(lia)). lia.
      * intros ->. specialize (Hlead eq_refl). subst ds.
        unfold digits_value in Hvalue. simpl in Hvalue.
        assert (1 <= n / 10) by (apply Z.div_le_lower_bound; lia). lia.
Qed.

Lemma log2_fuel (n : Z) : 0 <= n -> 0 <= n < 2 ^ Z.of_nat (S (Z.to_nat (Z.log2 n))).
Proof.
  intros Hn. split; [done|].
  rewrite Nat2Z.inj_succ, Z2Nat.id by apply Z.log2_nonneg.
  destruct (Z.eq_dec n 0) as [->|Hne]; [reflexivity|].
  apply Z.log2_spec. lia.
Qed.

Lemma take_digits_all (ds : jsstring) :
  Forall (fun c => is_digit c = true) ds -> take_digits ds = (ds, []).
Proof.
  induction 1 as [|c ds Hc _ IH]; [done|]. simpl. by rewrite Hc, IH.
Qed.

Lemma parse_number_digits (neg : bool) (d0 : Z) (ds : jsstring) :
  Forall (fun c => is_digit c = true) (d0 :: ds) ->
  (d0 = 48 -> ds = []) ->
  parse_number ((if neg then [ch "-"] else []) ++ d0 :: ds)
  = Some (mkNum neg (digits_value (d0 :: ds)) 0).
Proof.
  intros Hdigits Hlead.
  assert (Hd0 : 48 <= d0 <= 57).
  { apply Forall_cons in Hdigits as [Hd _]. by apply is_digit_true. }
  unfold parse_number.
  assert (Hsign : (match (if neg then [ch "-"] else []) ++ d0 :: ds with
                   | c :: r => if c =? ch "-" then (true, r)
                               else (false, (if neg then [ch "-"] else []) ++ d0 :: ds)
                   | [] => (false, (if neg then [ch "-"] else []) ++ d0 :: ds)
                   end) = (neg, d0 :: ds)).
  { destruct neg; [reflexivity|]. simpl.
    destruct (Z.eqb_spec d0 (ch "-")) as [Heq|]; [|done].
    change (ch "-") with 45 in Heq. lia. }
  rewrite Hsign, (take_digits_all _ Hdigits).
  destruct (Z.eqb_spec d0 (ch "0")) as [Hzero|Hnz].
  - change (ch "0") with 48 in Hzero. rewrite (Hlead Hzero). reflexivity.
  - simpl. by rewrite ?app_nil_r.
Qed.

Lemma Number_toString_shape (n : Z) :
  exists d0 ds,
    Number_toString n = (if n <? 0 then [ch "-"] else []) ++ d0 :: ds
    /\ Forall (fun c => is_digit c = true) (d0 :: ds)
    /\ digits_value (d0 :: ds) = Z.abs n
    /\ (d0 = 48 -> ds = []).
Proof.
  unfold Number_toString. destruct (Z.ltb_spec n 0) as [Hneg|Hpos].
  - rewrite Nat.add_1_r.
    destruct (pos_digits_spec (Z.to_nat (Z.log2 (- n))) (- n) [] (log2_fuel (- n) ltac:(lia)))
      as (d0 & ds & Heq & Hdigits & Hvalue & Hlead).
    exists d0, ds. rewrite Heq, app_nil_r. split_and!; [done|done|lia|done].
  - rewrite Nat.add_1_r.
    destruct (pos_digits_spec (Z.to_nat (Z.log2 n)) n [] (log2_fuel _ Hpos))
      as (d0 & ds & Heq & Hdigits & Hvalue & Hlead).
    exists d0, ds. rewrite Heq, app_nil_r. split_and!; [done|done|lia|done].
Qed.

Lemma parse_number_Number_toString (n : Z) :
  parse_number (Number_toString n) = Some (mkNum (n <? 0) (Z.abs n) 0).
Proof.
  destruct (Number_toString_shape n) as (d0 & ds & Heq & Hdigits & Hvalue & Hlead).
  rewrite Heq, parse_number_digits by done. by rewrite Hvalue.
Qed.

Lemma idle_step_digit (p : PState) (d : Z) :
  is_digit d = true -> idle_step p d = (LNum [d], p).
Proof.
  intros Hd. pose proof (proj1 (is_digit_true d) Hd) as Hrange.
  unfold idle_step, is_json_ws. rewrite Hd.
  repeat match goal with
         | |- context [d =? ?k] =>
             let H := fresh in
             destruct (Z.eqb_spec d k) as [H|_];
             [vm_compute in H; lia|]
         end.
  reflexivity.
Qed.

Lemma is_digit_number_char (c : Z) : is_digit c = true -> is_number_char c = true.
Proof. intros Hc. unfold is_number_char. by rewrite Hc. Qed.

Lemma lex_digits (ds acc : jsstring) (p : PState) :
  Forall (fun c => is_digit c = true) ds ->
  fold_left lex_step ds (LNum acc, p) = (LNum (rev ds ++ acc), p).
Proof.
  intros Hds. revert acc. induction Hds as [|d ds Hd _ IH]; intros acc; [done|].
  cbn [fold_left]. simpl lex_step. rewrite (is_digit_number_char d Hd), IH.
  simpl. by rewrite <- app_assoc.
Qed.

(** A number written by [Number_toString] and followed by a code unit that
    ends it is read back as one number token. *)
Lemma lex_Number_toString (n c : Z) (rest : jsstring) (p : PState) :
  is_number_char c = false ->
  fold_left lex_step (Number_toString n ++ c :: rest) (LIdle, p)
  = fold_left lex_step rest
      (idle_step (parse_step p (TLit (JNum (mkNum (n <? 0) (Z.abs n) 0)))) c).
Proof.
  intros Hc.
  pose proof (parse_number_Number_toString n) as Hparse.
  destruct (Number_toString_shape n) as (d0 & ds & Heq & Hdigits & _ & _).
  rewrite Heq in *. rewrite fold_left_app.
  assert (Hrun : fold_left lex_step ((if n <? 0 then [ch "-"] else []) ++ d0 :: ds)
                           (LIdle, p)
                 = (LNum (rev ((if n <? 0 then [ch "-"] else []) ++ d0 :: ds)), p)).
  { destruct (n <? 0).
    - change (fold_left lex_step ([ch "-"] ++ d0 :: ds) (LIdle, p))
        with (fold_left lex_step (d0 :: ds) (LNum [ch "-"], p)).
      rewrite (lex_digits (d0 :: ds)) by done. simpl. by rewrite <- !app_assoc.
    - apply Forall_cons in Hdigits as [Hd0 Hds].
      change (fold_left lex_step ([] ++ d0 :: ds) (LIdle, p))
        with (fold_left lex_step ds (idle_step p d0)).
      rewrite idle_step_digit, lex_digits by done. reflexivity. }
  rewrite Hrun. cbn [fold_left]. simpl lex_step. rewrite Hc.
  unfold finish_number. by rewrite rev_involutive, Hparse.
Qed.

(** *** Feed entries *)

Lemma well_formed_string_check (s : jsstring) :
  forallb (fun c => (0 <=? c) && (c <? 65536)) s = true -> well_formed_string s.
Proof.
  unfold well_formed_string. induction s as [|c r IH]; simpl; intros Hall; [done|].
  apply andb_true_iff in Hall as [Hc Hr]. apply andb_true_iff in Hc as [H0 H1].
  constructor; [|by apply IH]. unfold is_code_unit. lia.
Qed.

Lemma lex_lbrace (rest : jsstring) (p : PState) :
  fold_left lex_step (js "{" ++ rest) (LIdle, p)
  = fold_left lex_step rest (LIdle, parse_step p TLBrace).
Proof. reflexivity. Qed.

Lemma lex_rbrace (rest : jsstring) (p : PState) :
  fold_left lex_step (js "}" ++ rest) (LIdle, p)
  = fold_left lex_step rest (LIdle, parse_step p TRBrace).
Proof. reflexivity. Qed.

Lemma lex_colon (rest : jsstring) (p : PState) :
  fold_left lex_step (js ":" ++ rest) (LIdle, p)
  = fold_left lex_step rest (LIdle, parse_step p TColon).
Proof. reflexivity. Qed.

Lemma lex_comma (rest : jsstring) (p : PState) :
  fold_left lex_step (js "," ++ rest) (LIdle, p)
  = fold_left lex_step rest (LIdle, parse_step p TComma).
Proof. reflexivity. Qed.

Lemma lex_boolean (b : bool) (rest : jsstring) (p : PState) :
  fold_left lex_step ((if b then js "true" else js "false") ++ rest) (LIdle, p)
  = fold_left lex_step rest (LIdle, parse_step p (TLit (JBool b))).
Proof. destruct b; reflexivity. Qed.

Lemma lex_Number_then_comma (n : Z) (rest : jsstring) (p : PState) :
  fold_left lex_step (Number_toString n ++ js "," ++ rest) (LIdle, p)
  = fold_left lex_step rest
      (LIdle, parse_step (parse_step p (TLit (JNum (mkNum (n <? 0) (Z.abs n) 0))))
                         TComma).
Proof.
  change (js "," ++ rest) with (44 :: rest).
  by rewrite lex_Number_toString.
Qed.

Lemma lex_stringify_feed (f : Feed.t) (rest : jsstring) (stk : list Cont) :
  well_formed_feed f ->
  fold_left lex_step (stringify_feed f ++ rest) (LIdle, SValue stk)
  = fold_left lex_step rest (LIdle, complete (feed_value f) stk).
Proof.
  intros (_ & Hname & Hurl & Hcat & Hdate).
  unfold stringify_feed. rewrite <- !app_assoc.
  rewrite lex_lbrace.
  rewrite lex_QuoteJSONString, lex_colon by by apply well_formed_string_check.
  rewrite lex_Number_then_comma.
  rewrite lex_QuoteJSONString, lex_colon by by apply well_formed_string_check.
  rewrite lex_QuoteJSONString, lex_comma by done.
  rewrite lex_QuoteJSONString, lex_colon by by apply well_formed_string_check.
  rewrite lex_QuoteJSONString, lex_comma by done.
  rewrite lex_QuoteJSONString, lex_colon by by apply well_formed_string_check.
  rewrite lex_QuoteJSONString, lex_comma by done.
  rewrite lex_QuoteJSONString, lex_colon by by apply well_formed_string_check.
  rewrite lex_QuoteJSONString, lex_comma by done.
  rewrite lex_QuoteJSONString, lex_colon by by apply well_formed_string_check.
  rewrite lex_boolean, lex_rbrace.
  reflexivity.
Qed.

Lemma decode_feed_value (f : Feed.t) :
  well_formed_feed f -> decode_feed (feed_value f) = Some f.
Proof.
  intros (Hid & _). destruct f as [i n u c d e]. simpl in Hid.
  unfold feed_value, decode_feed. cbn [Feed.id Feed.name Feed.url Feed.category
                                      Feed.dateAdded Feed.enabled].
  change (jsstring_eqb (js "id") (js "id") && jsstring_eqb (js "name") (js "name")
          && jsstring_eqb (js "url") (js "url")
          && jsstring_eqb (js "category") (js "category")
          && jsstring_eqb (js "dateAdded") (js "dateAdded")
          && jsstring_eqb (js "enabled") (js "enabled")) with true.
  cbv iota. unfold num_to_Z. cbn [num_mantissa num_exp10 num_neg].
  change (0 <=? 0) with true. cbv iota. rewrite Z.pow_0_r, Z.mul_1_r.
  destruct (Z.ltb_spec (Z.abs i) pow2_53) as [_|Hbig]; [|unfold pow2_53 in *; lia].
  destruct (Z.ltb_spec i 0); do 2 f_equal; lia.
Qed.

Lemma JSON_parse_stringify_feeds (l : list Feed.t) :
  Forall well_formed_feed l ->
  JSON_parse (JSON_stringify_feeds l) = Normal (JArr (List.map feed_value l)).
Proof.
  intros Hl. unfold JSON_parse, JSON_stringify_feeds.
  change (js ",") with [44].
  rewrite (lex_array well_formed_feed stringify_feed feed_value).
  - reflexivity.
  - intros f rest stk Hf. by apply lex_stringify_feed.
  - intros f rest stk Hf. unfold stringify_feed.
    rewrite <- !app_assoc, !lex_lbrace. reflexivity.
  - exact Hl.
Qed.

(** A loader that finds a text that parses to a truthy value returns that
    value and leaves the environment alone. *)
Lemma load_parsed (key msg text : jsstring) (v : JsValue) (e : Env) :
  getItem key e = Some text -> JSON_parse text = Normal v -> truthy v = true ->
  load key msg e = (Normal v, e).
Proof.
  intros Hget Hparse Htruthy.
  unfold load, try_catch, localStorage_getItem, lift_completion.
  unfold mbind, Script_bind, mret, Script_ret, JSON_parse_item, js_or.
  by rewrite Hget, Hparse, Htruthy.
Qed.

Lemma getItem_setItem (key value : jsstring) (e : Env) :
  getItem key (setItem key value e) = Some value.
Proof. unfold getItem, setItem. simpl. apply lookup_insert_eq. Qed.

Lemma getItem_setItem_other (key key' value : jsstring) (e : Env) :
  key <> key' -> getItem key' (setItem key value e) = getItem key' e.
Proof. intros Hne. unfold getItem, setItem. simpl. by apply lookup_insert_ne. Qed.

Lemma keys_differ : key_customFeeds <> key_deletedArticles.
Proof. vm_compute. discriminate. Qed.

(** X1: Round trip of the deleted-articles registry: what [saveDeletedArticles]
    stores, [loadDeletedArticles] reads back as the same collection. *)
Theorem deleted_articles_round_trip (c : Customizer) :
  Forall well_formed_string (deletedArticles c) ->
  exists v,
    loadDeletedArticles (env (saveDeletedArticles c))
    = (Normal v, env (saveDeletedArticles c))
    /\ decode_urls v = Some (deletedArticles c).
Proof.
  intros Hl. exists (JArr (List.map JStr (deletedArticles c))). split.
  - unfold loadDeletedArticles.
    apply (load_parsed _ _ (JSON_stringify_urls (deletedArticles c))).
    + apply getItem_setItem.
    + by apply JSON_parse_stringify_urls.
    + reflexivity.
  - apply (decode_all_map decode_url). by apply Forall_forall.
Qed.

Lemma deleted_articles_round_trip_witness :
  exists v,
    loadDeletedArticles (env (saveDeletedArticles one_deleted))
    = (Normal v, env (saveDeletedArticles one_deleted))
    /\ decode_urls v = Some [js "https://news.example.com/a0"].
Proof.
  apply (deleted_articles_round_trip one_deleted).
  constructor; [by apply well_formed_string_check | constructor].
Defined.

(** X2: Round trip of the feed registry: what [saveCustomFeeds] stores,
    [loadCustomFeeds] reads back as the same collection, field by field. *)
Theorem custom_feeds_round_trip (c : Customizer) :
  Forall well_formed_feed (customFeeds c) ->
  exists v,
    loadCustomFeeds (env (saveCustomFeeds c)) = (Normal v, env (saveCustomFeeds c))
    /\ decode_feeds v = Some (customFeeds c).
Proof.
  intros Hl. exists (JArr (List.map feed_value (customFeeds c))). split.
  - unfold loadCustomFeeds.
    apply (load_parsed _ _ (JSON_stringify_feeds (customFeeds c))).
    + apply getItem_setItem.
    + by apply JSON_parse_stringify_feeds.
    + reflexivity.
  - apply (decode_all_map decode_feed).
    eapply Forall_impl; [exact Hl|]. intros f Hf. by apply decode_feed_value.
Qed.

Lemma custom_feeds_round_trip_witness :
  exists v,
    loadCustomFeeds (env (saveCustomFeeds twins)) = (Normal v, env (saveCustomFeeds twins))
    /\ decode_feeds v = Some [feed_c; feed_a; feed_b].
Proof.
  apply (custom_feeds_round_trip twins). simpl.
  repeat (constructor;
          [split; [unfold pow2_53; simpl; lia
                  | split_and!; by apply well_formed_string_check]|]).
  constructor.
Defined.

(** ** Reloading the page *)

Lemma Number_toString_well_formed (n : Z) : well_formed_string (Number_toString n).
Proof.
  destruct (Number_toString_shape n) as (d0 & ds & Heq & Hdigits & _ & _).
  rewrite Heq. apply Forall_app. split.
  - destruct (n <? 0); [by apply well_formed_string_check | constructor].
  - eapply Forall_impl; [exact Hdigits|]. intros c Hc.
    apply is_digit_true in Hc. unfold is_code_unit. lia.
Qed.

Lemma pad_left_well_formed (width : nat) (s : jsstring) :
  well_formed_string s -> well_formed_string (pad_left width s).
Proof.
  intros Hs. unfold pad_left. apply Forall_app. split; [|done].
  apply Forall_forall. intros c Hc. apply list_elem_of_In, repeat_spec in Hc as ->.
  unfold is_code_unit. lia.
Qed.

Lemma year_string_well_formed (y : Z) : well_formed_string (year_string y).
Proof.
  unfold year_string. destruct ((0 <=? y) && (y <=? 9999)).
  - apply pad_left_well_formed, Number_toString_well_formed.
  - constructor.
    + destruct (y <? 0); unfold is_code_unit; vm_compute; intuition discriminate.
    + apply pad_left_well_formed, Number_toString_well_formed.
Qed.

Lemma well_formed_string_app (a b : jsstring) :
  well_formed_string a -> well_formed_string b -> well_formed_string (a ++ b).
Proof. intros Ha Hb. by apply Forall_app. Qed.

Lemma toISOString_well_formed (t : Z) : well_formed_string (toISOString t).
Proof.
  unfold toISOString. destruct (civil_from_days (t / 86400000)) as [[y m] d].
  unfold two.
  repeat match goal with
         | |- well_formed_string (_ ++ _) => apply well_formed_string_app
         end;
    first [ apply year_string_well_formed
          | apply pad_left_well_formed, Number_toString_well_formed
          | by apply well_formed_string_check ].
Qed.

(** [applyArticleFilters] returns when the host accepts every selector, and
    raises the SyntaxError of the first one it refuses. *)
Lemma applyArticleFilters_from_cases (selector_parses : jsstring -> bool)
    (urls : list jsstring) :
  (selectors_accepted selector_parses urls
   /\ applyArticleFilters_from selector_parses urls = Normal tt)
  \/ (~ selectors_accepted selector_parses urls
      /\ applyArticleFilters_from selector_parses urls = Throw SyntaxError).
Proof.
  unfold selectors_accepted.
  induction urls as [|url rest IH]; simpl.
  - left. by split.
  - unfold querySelectorAll_raises.
    destruct (selector_parses (article_selector url)) eqn:Hurl.
    + destruct IH as [[Hrest ->]|[Hrest ->]].
      * left. split; [by constructor | done].
      * right. split; [|done]. intros Hall. apply Hrest. by inversion Hall.
    + right. split; [|done]. intros Hall. inversion Hall as [|? ? Hhead]. congruence.
Qed.

Lemma init_returns (selector_parses : jsstring -> bool) (c : Customizer) :
  selectors_accepted selector_parses (deletedArticles c) ->
  init selector_parses c = Normal (updateStats (setupUI c)).
Proof.
  intros Hselectors. unfold init, applyArticleFilters.
  change (deletedArticles (setupUI c)) with (deletedArticles c).
  by destruct (applyArticleFilters_from_cases selector_parses (deletedArticles c))
    as [[_ ->]|[Hno _]].
Qed.

Lemma init_raises (selector_parses : jsstring -> bool) (c : Customizer) :
  ~ selectors_accepted selector_parses (deletedArticles c) ->
  init selector_parses c = Throw SyntaxError.
Proof.
  intros Hselectors. unfold init, applyArticleFilters.
  change (deletedArticles (setupUI c)) with (deletedArticles c).
  by destruct (applyArticleFilters_from_cases selector_parses (deletedArticles c))
    as [[Hyes _]|[_ ->]].
Qed.

(** State continuity: a page whose two stored items hold its collections is
    rebuilt by a reload with the same collections, and with all three badges
    showing values derived from them. *)
Theorem reload_restores (selector_parses : jsstring -> bool) (c : Customizer) :
  persisted c -> well_formed c ->
  selectors_accepted selector_parses (deletedArticles c) ->
  exists c',
    reload selector_parses c = Some (Normal c')
    /\ customFeeds c' = customFeeds c
    /\ deletedArticles c' = deletedArticles c
    /\ env c' = env c
    /\ counters_in_sync c'
    /\ stats_badge (dom c') = Some (stats_badge_text (enabledCount (customFeeds c))).
Proof.
  intros [Hfeeds Hurls] [Hwf_feeds Hwf_urls] Hselectors.
  unfold reload, new_SeniorNewsCustomizer, loadCustomFeeds, loadDeletedArticles.
  rewrite (load_parsed _ _ _ (JArr (List.map feed_value (customFeeds c))) _ Hfeeds)
    by (by apply JSON_parse_stringify_feeds || reflexivity).
  rewrite (load_parsed _ _ _ (JArr (List.map JStr (deletedArticles c))) _ Hurls)
    by (by apply JSON_parse_stringify_urls || reflexivity).
  unfold decode_feeds, decode_urls.
  rewrite (decode_all_map decode_feed feed_value (customFeeds c))
    by (eapply Forall_impl; [exact Hwf_feeds|]; intros f Hf; by apply decode_feed_value).
  rewrite (decode_all_map decode_url JStr (deletedArticles c))
    by by apply Forall_forall.
  rewrite init_returns by exact Hselectors.
  eexists. split; [reflexivity|].
  split_and!; try reflexivity. split; reflexivity.
Qed.

(** A reload raises when the host refuses the selector of a deleted URL. *)
Lemma reload_raises (selector_parses : jsstring -> bool) (c : Customizer) :
  persisted c -> well_formed c ->
  ~ selectors_accepted selector_parses (deletedArticles c) ->
  reload selector_parses c = Some (Throw SyntaxError).
Proof.
  intros [Hfeeds Hurls] [Hwf_feeds Hwf_urls] Hselectors.
  unfold reload, new_SeniorNewsCustomizer, loadCustomFeeds, loadDeletedArticles.
  rewrite (load_parsed _ _ _ (JArr (List.map feed_value (customFeeds c))) _ Hfeeds)
    by (by apply JSON_parse_stringify_feeds || reflexivity).
  rewrite (load_parsed _ _ _ (JArr (List.map JStr (deletedArticles c))) _ Hurls)
    by (by apply JSON_parse_stringify_urls || reflexivity).
  unfold decode_feeds, decode_urls.
  rewrite (decode_all_map decode_feed feed_value (customFeeds c))
    by (eapply Forall_impl; [exact Hwf_feeds|]; intros f Hf; by apply decode_feed_value).
  rewrite (decode_all_map decode_url JStr (deletedArticles c))
    by by apply Forall_forall.
  by rewrite init_raises.
Qed.

(** ** Invariants of a session *)

Lemma perform_cases (c : Customizer) (a : Action) :
  (exists l, perform c a = saveCustomFeeds (with_customFeeds l c))
  \/ (exists l, perform c a = saveDeletedArticles (with_deletedArticles l c))
  \/ (exists e, perform c a = with_env e c
                /\ localStorage e = localStorage (env c)).
Proof.
  destruct a as [[now date feedData|feedId|feedId]|url|url|access]; simpl.
  - left. eexists. reflexivity.
  - left. eexists. reflexivity.
  - unfold toggleCustomFeed.
    destruct (list_find _ (customFeeds c)) as [[i feed]|].
    + left. eexists. reflexivity.
    + right. right. exists (env c). by destruct c.
  - unfold deleteArticle. destruct (negb (includes (deletedArticles c) url)).
    + right. left. eexists. reflexivity.
    + right. right. exists (env c). by destruct c.
  - right. left. eexists. reflexivity.
  - right. right. unfold exportCustomFeedsForYAML.
    destruct (customFeeds c); [|destruct access]; simpl;
      try (eexists; split; reflexivity).
    exists (env c). by destruct c.
Qed.

Lemma perform_persisted (c : Customizer) (a : Action) :
  persisted c -> persisted (perform c a).
Proof.
  intros [Hfeeds Hurls]. unfold persisted, feeds_persisted, urls_persisted in *.
  destruct (perform_cases c a) as [[l ->]|[[l ->]|(e & -> & He)]].
  - split; [apply getItem_setItem|].
    simpl. rewrite getItem_setItem_other by apply keys_differ. exact Hurls.
  - split; [|apply getItem_setItem].
    simpl. rewrite getItem_setItem_other by (apply not_eq_sym, keys_differ).
    exact Hfeeds.
  - unfold getItem in *. simpl. rewrite He. by split.
Qed.

Lemma perform_counters_in_sync (c : Customizer) (a : Action) :
  counters_in_sync c -> counters_in_sync (perform c a).
Proof.
  intros [Hcustom Hdeleted]. unfold counters_in_sync in *.
  destruct (perform_cases c a) as [[l ->]|[[l ->]|(e & -> & He)]]; simpl.
  - by rewrite Hcustom, Hdeleted.
  - by rewrite Hcustom, Hdeleted.
  - by split.
Qed.

Lemma perform_no_duplicates (c : Customizer) (a : Action) :
  NoDup (deletedArticles c) -> NoDup (deletedArticles (perform c a)).
Proof.
  intros Hnodup.
  destruct a as [[now date feedData|feedId|feedId]|url|url|access]; simpl; try done.
  - unfold toggleCustomFeed.
    by destruct (list_find _ (customFeeds c)) as [[i feed]|].
  - rewrite deletedArticles_deleteArticle.
    destruct (includes (deletedArticles c) url) eqn:Hin; [done|].
    apply NoDup_app. split_and!; [done| |apply NoDup_singleton].
    intros u Hu ->%list_elem_of_singleton. by apply includes_false in Hin.
  - by apply NoDup_filter.
  - unfold exportCustomFeedsForYAML. by destruct (customFeeds c), access.
Qed.

Lemma category_or_General_well_formed (cat : option jsstring) :
  (forall s, cat = Some s -> well_formed_string s) ->
  well_formed_string (category_or_General cat).
Proof.
  intros Hcat. destruct cat as [[|x r]|]; simpl;
    [by apply well_formed_string_check | by apply Hcat
    | by apply well_formed_string_check].
Qed.

Lemma Forall_filter_keep {A : Type} (P Q : A -> Prop) `{!forall x, Decision (Q x)}
    (l : list A) :
  Forall P l -> Forall P (filter Q l).
Proof.
  rewrite !Forall_forall. intros Hl x Hx.
  apply list_elem_of_filter in Hx as [_ Hx]. by apply Hl.
Qed.

Lemma perform_well_formed (c : Customizer) (a : Action) :
  well_formed c -> well_formed_action a -> well_formed (perform c a).
Proof.
  intros [Hfeeds Hurls] Ha. unfold well_formed.
  destruct a as [[now date feedData|feedId|feedId]|url|url|access]; simpl.
  - destruct Ha as (Hnow & Hname & Hurl & Hcat). split; [|done].
    apply Forall_app. split; [done|]. constructor; [|constructor].
    unfold well_formed_feed. simpl. split; [exact Hnow|].
    split_and!; [done | done | by apply category_or_General_well_formed
                | apply toISOString_well_formed].
  - split; [|done]. by apply Forall_filter_keep.
  - split.
    + rewrite customFeeds_toggleCustomFeed.
      destruct (list_find _ (customFeeds c)) as [[i feed]|] eqn:Hfind; [|done].
      apply list_find_Some in Hfind as (Hi & _).
      apply Forall_insert; [done|].
      rewrite Forall_lookup in Hfeeds. by apply (Hfeeds i feed Hi).
    + unfold toggleCustomFeed.
      by destruct (list_find _ (customFeeds c)) as [[i feed]|].
  - split.
    + unfold deleteArticle. by destruct (negb (includes (deletedArticles c) url)).
    + rewrite deletedArticles_deleteArticle.
      destruct (includes (deletedArticles c) url); [done|].
      apply Forall_app. split; [done|]. by repeat constructor.
  - split; [done|]. by apply Forall_filter_keep.
  - destruct c as [[|f l] urls d e]; simpl in *; [done|]. by destruct access.
Qed.

Lemma session_invariant (P : Customizer -> Prop) (ok : Action -> Prop) :
  (forall c a, P c -> ok a -> P (perform c a)) ->
  forall actions c, P c -> Forall ok actions -> P (session actions c).
Proof.
  intros Hstep actions. induction actions as [|a actions IH]; intros c Hc Hok; [done|].
  apply Forall_cons in Hok as [Ha Hrest].
  apply (IH (perform c a)); [by apply Hstep | done].
Qed.

Lemma sample_actions_well_formed : Forall well_formed_action sample_actions.
Proof.
  unfold sample_actions.
  repeat match goal with
         | |- Forall well_formed_action (_ :: _) => apply Forall_cons; split
         end;
    try apply Forall_nil; try exact I.
  - split; [unfold pow2_53; lia|].
    split_and!; [by apply well_formed_string_check
                | by apply well_formed_string_check | discriminate].
  - by apply well_formed_string_check.
  - split; [unfold pow2_53; lia|].
    split_and!; [by apply well_formed_string_check
                | by apply well_formed_string_check |].
    intros cat [= <-]. by apply well_formed_string_check.
  - by apply well_formed_string_check.
Qed.

Lemma stored_empty_page_persisted : persisted stored_empty_page.
Proof. split; reflexivity. Qed.

Lemma stored_empty_page_well_formed : well_formed stored_empty_page.
Proof. split; constructor. Qed.

Lemma sample_session_selectors :
  selectors_accepted accepts_plain_selector
    (deletedArticles (session sample_actions stored_empty_page)).
Proof. repeat constructor. Qed.

(** X3: State continuity across reloads: whatever the session of registry
    actions, the stored items hold the collections, and reloading the page
    rebuilds exactly the collections the session ended with, provided the
    host accepts the selector [a[href=...]] that the constructor builds for
    every deleted URL; when it refuses one of them (a URL that holds a double
    quote, say) the constructor raises a SyntaxError instead. *)
Theorem session_survives_reload (selector_parses : jsstring -> bool)
    (actions : list Action) (c : Customizer) :
  persisted c -> well_formed c -> Forall well_formed_action actions ->
  (selectors_accepted selector_parses (deletedArticles (session actions c)) ->
   exists c',
     reload selector_parses (session actions c) = Some (Normal c')
     /\ customFeeds c' = customFeeds (session actions c)
     /\ deletedArticles c' = deletedArticles (session actions c))
  /\ (~ selectors_accepted selector_parses (deletedArticles (session actions c)) ->
      reload selector_parses (session actions c) = Some (Throw SyntaxError)).
Proof.
  intros Hpersisted Hwf Hactions.
  assert (Hboth : persisted (session actions c) /\ well_formed (session actions c)).
  { apply (session_invariant (fun c => persisted c /\ well_formed c) well_formed_action);
      [|done|done].
    intros c0 a [Hp Hw] Ha. split;
      [by apply perform_persisted | by apply perform_well_formed]. }
  destruct Hboth as [Hp Hw]. split.
  - intros Hselectors.
    destruct (reload_restores selector_parses _ Hp Hw Hselectors)
      as (c' & Hreload & Hfeeds & Hurls & _).
    exists c'. split; [exact Hreload|]. split; [exact Hfeeds | exact Hurls].
  - intros Hselectors. by apply reload_raises.
Qed.

Lemma session_survives_reload_witness :
  selectors_accepted accepts_plain_selector
    (deletedArticles (session sample_actions stored_empty_page))
  /\ exists c',
       reload accepts_plain_selector (session sample_actions stored_empty_page)
       = Some (Normal c')
       /\ customFeeds c' = customFeeds (session sample_actions stored_empty_page)
       /\ deletedArticles c' = deletedArticles (session sample_actions stored_empty_page).
Proof.
  split; [exact sample_session_selectors|].
  destruct (session_survives_reload accepts_plain_selector sample_actions
              stored_empty_page) as [Hreload _].
  - exact stored_empty_page_persisted.
  - exact stored_empty_page_well_formed.
  - exact sample_actions_well_formed.
  - exact (Hreload sample_session_selectors).
Defined.

(** X4: Load, modify, save: every mutation of a registry leaves in the store the
    serialization of the collection it produced, and a session never lets a
    stored item fall behind its collection. *)
Theorem stores_follow_collections (c : Customizer) :
  (forall now date feedData,
     feeds_persisted (snd (addCustomFeed now date feedData c)))
  /\ (forall feedId, feeds_persisted (removeCustomFeed feedId c))
  /\ (forall feedId, Exists (fun f => Feed.id f = feedId) (customFeeds c) ->
                     feeds_persisted (toggleCustomFeed feedId c))
  /\ (forall url, isArticleDeleted url c = false ->
                  urls_persisted (deleteArticle url c))
  /\ (forall url, urls_persisted (restoreArticle url c))
  /\ (forall actions, persisted c -> persisted (session actions c)).
Proof.
  split_and!.
  - intros. apply getItem_setItem.
  - intros. apply getItem_setItem.
  - intros feedId Hex. unfold toggleCustomFeed.
    destruct (list_find _ (customFeeds c)) as [[i feed]|] eqn:Hfind;
      [apply getItem_setItem|].
    apply list_find_None in Hfind. apply Exists_exists in Hex as (f & Hf & Hid).
    rewrite Forall_forall in Hfind. by destruct (Hfind f Hf).
  - intros url Hout. unfold isArticleDeleted in Hout. unfold deleteArticle.
    rewrite Hout. apply getItem_setItem.
  - intros. apply getItem_setItem.
  - intros actions Hp.
    apply (session_invariant persisted (fun _ => True)); [|done|].
    + intros c0 a Hc0 _. by apply perform_persisted.
    + by apply Forall_forall.
Qed.

Lemma stores_follow_collections_witness :
  feeds_persisted (toggleCustomFeed 1000 twins)
  /\ persisted (session sample_actions stored_empty_page).
Proof.
  destruct (stores_follow_collections twins) as (_ & _ & Htoggle & _).
  destruct (stores_follow_collections stored_empty_page) as (_ & _ & _ & _ & _ & Hsession).
  split.
  - apply Htoggle. apply Exists_cons_tl, Exists_cons_hd. reflexivity.
  - apply Hsession. exact stored_empty_page_persisted.
Defined.

Lemma constructed_page (selector_parses : jsstring -> bool) (e : Env) (c : Customizer) :
  new_SeniorNewsCustomizer selector_parses e = Some (Normal c) ->
  exists feeds urls e', c = updateStats (setupUI (mkCustomizer feeds urls blank_page e')).
Proof.
  unfold new_SeniorNewsCustomizer.
  destruct (loadCustomFeeds e) as [r1 e1]. destruct (loadDeletedArticles e1) as [r2 e2].
  destruct r1 as [v1|]; [|done]. destruct r2 as [v2|]; [|done].
  destruct (decode_feeds v1) as [feeds|]; [|done].
  destruct (decode_urls v2) as [urls|]; [|done].
  unfold init, applyArticleFilters.
  destruct (applyArticleFilters_from _ _); [|done].
  intros [= <-]. by exists feeds, urls, e2.
Qed.

(** X5: On every page the constructor builds, and after every session of
    registry actions on it, the custom-feed counter shows the number of feeds
    and the deleted-articles counter the number of deleted articles. *)
Theorem counters_follow_collections (selector_parses : jsstring -> bool)
    (e : Env) (c : Customizer) (actions : list Action) :
  new_SeniorNewsCustomizer selector_parses e = Some (Normal c) ->
  counters_in_sync c /\ counters_in_sync (session actions c).
Proof.
  intros Hnew.
  destruct (constructed_page selector_parses e c Hnew) as (feeds & urls & e' & ->).
  assert (Hstart : counters_in_sync
                     (updateStats (setupUI (mkCustomizer feeds urls blank_page e'))))
    by (split; reflexivity).
  split; [done|].
  apply (session_invariant counters_in_sync (fun _ => True)); [|done|].
  - intros c0 a Hc0 _. by apply perform_counters_in_sync.
  - by apply Forall_forall.
Qed.

Lemma counters_follow_collections_witness :
  exists c, new_SeniorNewsCustomizer accepts_plain_selector empty_env = Some (Normal c)
            /\ counters_in_sync (session sample_actions c).
Proof.
  eexists. split; [reflexivity|].
  eapply (counters_follow_collections accepts_plain_selector empty_env). reflexivity.
Defined.

(** X6: The deletion registry never holds a URL twice: no session of actions
    introduces a duplicate. *)
Theorem deletions_stay_distinct (actions : list Action) (c : Customizer) :
  NoDup (deletedArticles c) -> NoDup (deletedArticles (session actions c)).
Proof.
  intros Hnodup.
  apply (session_invariant (fun c => NoDup (deletedArticles c)) (fun _ => True));
    [|done|].
  - intros c0 a Hc0 _. by apply perform_no_duplicates.
  - by apply Forall_forall.
Qed.

Lemma deletions_stay_distinct_witness :
  NoDup (deletedArticles (session sample_actions one_deleted)).
Proof.
  apply deletions_stay_distinct. apply NoDup_singleton.
Defined.

(** ** Starting from a damaged store *)

Lemma load_unreadable (key msg : jsstring) (e : Env) :
  unreadable key e ->
  exists e', load key msg e = (Normal (JArr []), e')
             /\ localStorage e' = localStorage e.
Proof.
  intros Hbad.
  pose proof (load_meets_contract key msg e) as (_ & Hmissing & Hcorrupt & _).
  pose proof (load_effects key msg e) as [Hstore _].
  destruct (load key msg e) as [r e'] eqn:Hload. simpl in *.
  exists e'. split; [|done]. f_equal.
  destruct Hbad as [Hnone|(text & err & Hget & Hparse)]; [by apply Hmissing|].
  by apply (Hcorrupt text err).
Qed.

(** X7: A store whose two items are missing or are not valid JSON still gives a
    working page: the constructor returns, both collections are empty, both
    counters show 0 and nothing is written back to the store. *)
Theorem damaged_store_gives_empty_page (selector_parses : jsstring -> bool) (e : Env) :
  unreadable key_customFeeds e -> unreadable key_deletedArticles e ->
  exists c,
    new_SeniorNewsCustomizer selector_parses e = Some (Normal c)
    /\ customFeeds c = [] /\ deletedArticles c = []
    /\ custom_count (dom c) = Some (js "0")
    /\ deleted_count (dom c) = Some (js "0")
    /\ localStorage (env c) = localStorage e.
Proof.
  intros Hfeeds Hurls. unfold new_SeniorNewsCustomizer, loadCustomFeeds, loadDeletedArticles.
  destruct (load_unreadable key_customFeeds (js "Error loading custom feeds:") e Hfeeds)
    as (e1 & -> & Hstore1).
  assert (Hurls1 : unreadable key_deletedArticles e1).
  { unfold unreadable, getItem in *. by rewrite Hstore1. }
  destruct (load_unreadable key_deletedArticles (js "Error loading deleted articles:")
                            e1 Hurls1) as (e2 & -> & Hstore2).
  eexists. split; [reflexivity|].
  split_and!; try reflexivity. simpl. congruence.
Qed.

Lemma damaged_store_gives_empty_page_witness :
  exists c, new_SeniorNewsCustomizer accepts_plain_selector corrupt_env = Some (Normal c)
            /\ customFeeds c = [].
Proof.
  destruct (damaged_store_gives_empty_page accepts_plain_selector corrupt_env)
    as (c & Hnew & Hfeeds & _).
  - right. exists corrupt_text, SyntaxError. split; vm_compute; reflexivity.
  - left. vm_compute. reflexivity.
  - by exists c.
Defined.

(** ** More on the deletion registry *)

Lemma set_count_twice_any (b : option jsstring) (n m : nat) :
  set_count (set_count b n) m = set_count b m.
Proof. by destruct b. Qed.

Lemma filter_absent (url : jsstring) (l : list jsstring) :
  url ∉ l -> filter (fun u => u <> url) l = l.
Proof.
  induction l as [|x l IH]; intros Hout; [done|].
  rewrite filter_cons_True by (intros ->; apply Hout; by left).
  rewrite IH; [done|]. intros Hin. apply Hout. by right.
Qed.

(** X8: Deleting an article and restoring it undoes the deletion altogether: on
    a page whose deleted-articles item and counters are up to date, the whole
    state (collection, stored text, counters) is as it was before. *)
Theorem delete_then_restore (url : jsstring) (c : Customizer) :
  isArticleDeleted url c = false ->
  deletedArticles (restoreArticle url (deleteArticle url c)) = deletedArticles c
  /\ (urls_persisted c -> counters_in_sync c ->
      restoreArticle url (deleteArticle url c) = c).
Proof.
  intros Hout. assert (Hnot : url ∉ deletedArticles c) by by apply includes_false.
  assert (Hlist : filter (fun u => u <> url) (deletedArticles c ++ [url])
                  = deletedArticles c).
  { rewrite filter_app, filter_absent by done.
    rewrite filter_cons_False by (intros Hne; by apply Hne).
    by rewrite app_nil_r. }
  unfold isArticleDeleted in Hout. unfold deleteArticle. rewrite Hout. simpl negb. cbv iota.
  split.
  - rewrite deletedArticles_restoreArticle. exact Hlist.
  - intros Hpersisted [Hcustom Hdeleted].
    destruct c as [feeds urls [cc dc sb md nv uv cv] [ls co al cl]].
    unfold urls_persisted, getItem in Hpersisted. simpl in *.
    unfold restoreArticle, saveDeletedArticles, updateStats, with_dom, with_env,
      with_deletedArticles, setItem. simpl.
    rewrite Hlist, insert_insert_eq, !set_count_twice_any.
    rewrite (insert_id ls _ _ Hpersisted).
    subst cc dc. reflexivity.
Qed.

Lemma delete_then_restore_witness :
  restoreArticle (js "https://news.example.com/a1")
    (deleteArticle (js "https://news.example.com/a1") stored_empty_page)
  = stored_empty_page.
Proof.
  destruct (delete_then_restore (js "https://news.example.com/a1") stored_empty_page)
    as [_ Hwhole]; [reflexivity|].
  apply Hwhole; [reflexivity | split; reflexivity].
Defined.

Lemma includes_other (l : list jsstring) (url u : jsstring) :
  u <> url ->
  includes (l ++ [url]) u = includes l u
  /\ includes (filter (fun x => x <> url) l) u = includes l u.
Proof.
  intros Hne. unfold includes. split; apply bool_decide_ext.
  - rewrite elem_of_app, list_elem_of_singleton.
    split; [intros [?|?]; [done | by destruct Hne] | by left].
  - rewrite list_elem_of_filter. split; [by intros [_ ?] | by split].
Qed.

(** X9: Deleting or restoring one article leaves every other article as it was:
    its membership does not change and the URLs that stay keep their order. *)
Theorem deletion_touches_one_url (url : jsstring) (c : Customizer) :
  (forall u, u <> url ->
     isArticleDeleted u (deleteArticle url c) = isArticleDeleted u c
     /\ isArticleDeleted u (restoreArticle url c) = isArticleDeleted u c)
  /\ deletedArticles c `prefix_of` deletedArticles (deleteArticle url c)
  /\ deletedArticles (restoreArticle url c) `sublist_of` deletedArticles c.
Proof.
  split_and!.
  - intros u Hne. unfold isArticleDeleted.
    rewrite deletedArticles_deleteArticle, deletedArticles_restoreArticle.
    destruct (includes_other (deletedArticles c) url u Hne) as [Happ Hfilter].
    split; [|done]. by destruct (includes (deletedArticles c) url).
  - rewrite deletedArticles_deleteArticle.
    destruct (includes (deletedArticles c) url); [done|]. by apply prefix_app_r.
  - rewrite deletedArticles_restoreArticle. apply sublist_filter.
Qed.

Lemma deletion_touches_one_url_witness :
  isArticleDeleted (js "https://news.example.com/a0")
    (restoreArticle (js "https://news.example.com/a1") one_deleted) = true.
Proof.
  destruct (deletion_touches_one_url (js "https://news.example.com/a1") one_deleted)
    as (Hother & _).
  destruct (Hother (js "https://news.example.com/a0")) as [_ Hrestore];
    [vm_compute; discriminate|].
  rewrite Hrestore. reflexivity.
Defined.

(** X10: Both deletion operations are idempotent on the whole state of the page:
    a second call with the same URL changes nothing at all. *)
Theorem deletion_operations_idempotent (url : jsstring) (c : Customizer) :
  deleteArticle url (deleteArticle url c) = deleteArticle url c
  /\ restoreArticle url (restoreArticle url c) = restoreArticle url c.
Proof.
  split.
  - unfold deleteArticle at 1.
    assert (includes (deletedArticles (deleteArticle url c)) url = true) as ->; [|done].
    apply includes_true. rewrite deletedArticles_deleteArticle.
    destruct (includes (deletedArticles c) url) eqn:Hin;
      [by apply includes_true | set_solver].
  - destruct c as [feeds urls [cc dc sb md nv uv cv] [ls co al cl]].
    unfold restoreArticle, saveDeletedArticles, updateStats, with_dom, with_env,
      with_deletedArticles, setItem. simpl.
    rewrite insert_insert_eq, !set_count_twice_any.
    assert (filter (fun u => u <> url) (filter (fun u => u <> url) urls)
            = filter (fun u => u <> url) urls) as ->; [|done].
    rewrite list_filter_filter. apply list_filter_iff.
    intros x. split; [by intros [? _] | by intros ?; split].
Qed.

(** ** The two registries do not interfere *)

(** X11: A feed operation leaves the deleted articles and their stored item
    alone; a deletion operation leaves the feeds and their stored item alone;
    an export leaves all four alone. *)
Theorem registries_independent (c : Customizer) :
  (forall op,
     deletedArticles (apply_op c op) = deletedArticles c
     /\ getItem key_deletedArticles (env (apply_op c op))
        = getItem key_deletedArticles (env c))
  /\ (forall url,
        customFeeds (deleteArticle url c) = customFeeds c
        /\ getItem key_customFeeds (env (deleteArticle url c))
           = getItem key_customFeeds (env c)
        /\ customFeeds (restoreArticle url c) = customFeeds c
        /\ getItem key_customFeeds (env (restoreArticle url c))
           = getItem key_customFeeds (env c)).
Proof.
  split.
  - intros [now date feedData|feedId|feedId]; simpl.
    + split; [done|]. apply getItem_setItem_other, keys_differ.
    + split; [done|]. apply getItem_setItem_other, keys_differ.
    + unfold toggleCustomFeed.
      destruct (list_find _ (customFeeds c)) as [[i feed]|]; [|done].
      split; [done|]. apply getItem_setItem_other, keys_differ.
  - intros url. unfold deleteArticle.
    destruct (negb (includes (deletedArticles c) url)); split_and!; try done;
      apply getItem_setItem_other, not_eq_sym, keys_differ.
Qed.

(** ** Composing the feed operations *)

(** X12: Removing a feed right after adding it, by its id, gives back the
    collection as it was exactly when no older entry carries that id; an
    older entry created in the same millisecond is removed along with it. *)
Theorem add_then_remove (now date : Z) (feedData : FeedData.t) (c : Customizer) :
  customFeeds (removeCustomFeed now (snd (addCustomFeed now date feedData c)))
  = filter (fun f => Feed.id f <> now) (customFeeds c)
  /\ (Forall (fun f => Feed.id f <> now) (customFeeds c) <->
      customFeeds (removeCustomFeed now (snd (addCustomFeed now date feedData c)))
      = customFeeds c).
Proof.
  assert (Heq : customFeeds (removeCustomFeed now (snd (addCustomFeed now date feedData c)))
                = filter (fun f => Feed.id f <> now) (customFeeds c)).
  { rewrite customFeeds_removeCustomFeed, customFeeds_addCustomFeed, filter_app.
    rewrite filter_cons_False by (intros Hne; by apply Hne).
    by rewrite app_nil_r. }
  split; [exact Heq|]. rewrite Heq. split.
  - apply filter_id_absent.
  - intros Hsame. rewrite <- Hsame. apply Forall_forall.
    intros f Hf. by apply list_elem_of_filter in Hf as [Hne _].
Qed.

Lemma add_then_remove_witness :
  customFeeds (removeCustomFeed 3000 (snd (addCustomFeed 3000 3000 data_a twins)))
  = customFeeds twins.
Proof.
  destruct (add_then_remove 3000 3000 data_a twins) as [_ [Hfresh _]].
  apply Hfresh. repeat constructor; vm_compute; discriminate.
Defined.

Lemma enabledCount_app (l k : list Feed.t) :
  enabledCount (l ++ k) = (enabledCount l + enabledCount k)%nat.
Proof. unfold enabledCount. by rewrite filter_app, length_app. Qed.

Lemma enabledCount_cons (f : Feed.t) (l : list Feed.t) :
  enabledCount (f :: l)
  = ((if Feed.enabled f then 1 else 0) + enabledCount l)%nat.
Proof.
  unfold enabledCount. rewrite filter_cons.
  destruct (Feed.enabled f) eqn:He; [by rewrite decide_True|by rewrite decide_False].
Qed.

(** X13: How the number of enabled feeds moves: an [add] raises it by one, a
    [toggle] of an id that is present moves it by exactly one, up when the
    first entry with the id was disabled and down when it was enabled, a
    [toggle] of an absent id leaves it, and a [remove] never raises it. *)
Theorem enabled_count_moves (c : Customizer) :
  (forall now date feedData,
     enabledCount (customFeeds (snd (addCustomFeed now date feedData c)))
     = S (enabledCount (customFeeds c)))
  /\ (forall feedId i first,
        list_find (fun f => Feed.id f = feedId) (customFeeds c) = Some (i, first) ->
        (enabledCount (customFeeds (toggleCustomFeed feedId c))
         + (if Feed.enabled first then 1 else 0)
         = enabledCount (customFeeds c)
           + (if Feed.enabled first then 0 else 1))%nat)
  /\ (forall feedId,
        Forall (fun f => Feed.id f <> feedId) (customFeeds c) ->
        toggleCustomFeed feedId c = c)
  /\ (forall feedId,
        (enabledCount (customFeeds (removeCustomFeed feedId c))
         <= enabledCount (customFeeds c))%nat).
Proof.
  split_and!.
  - intros. rewrite customFeeds_addCustomFeed, enabledCount_app, enabledCount_cons.
    change (Feed.enabled (fst (addCustomFeed now date feedData c))) with true.
    change (enabledCount []) with 0%nat. cbv iota. lia.
  - intros feedId i first Hfind. rewrite customFeeds_toggleCustomFeed, Hfind.
    apply list_find_Some in Hfind as (Hi & _).
    apply list_elem_of_split_length in Hi as (before & after & Hsplit & Hlen).
    rewrite Hsplit. subst i.
    replace (length before) with (length before + 0)%nat by lia.
    rewrite insert_app_r. simpl.
    rewrite !enabledCount_app, !enabledCount_cons. simpl.
    destruct (Feed.enabled first); simpl; lia.
  - intros feedId Habsent. unfold toggleCustomFeed.
    by rewrite (proj2 (list_find_None _ _) Habsent).
  - intros feedId. rewrite customFeeds_removeCustomFeed. unfold enabledCount.
    rewrite list_filter_filter.
    induction (customFeeds c) as [|f l IH]; [done|].
    rewrite !filter_cons.
    destruct (decide (Feed.enabled f = true /\ Feed.id f <> feedId)) as [[He _]|Hno];
      destruct (decide (Feed.enabled f = true)); simpl; try lia; done.
Qed.

Lemma enabled_count_moves_witness :
  (enabledCount (customFeeds (toggleCustomFeed 1000 twins)) + 1
   = enabledCount (customFeeds twins) + 0)%nat
  /\ toggleCustomFeed 3000 twins = twins.
Proof.
  destruct (enabled_count_moves twins) as (_ & Htoggle & Habsent & _).
  split.
  - exact (Htoggle 1000 1%nat feed_a eq_refl).
  - apply Habsent. repeat constructor; vm_compute; discriminate.
Defined.

(** ** What the form stores *)

Lemma trim_start_head (s : jsstring) (c : Z) (r : jsstring) :
  trim_start s = c :: r -> is_js_whitespace c = false.
Proof.
  induction s as [|x s IH]; [done|]. simpl.
  destruct (is_js_whitespace x) eqn:Hx; [done|]. by intros [= <- _].
Qed.

Lemma trim_start_split (s : jsstring) :
  exists blank, s = blank ++ trim_start s
                /\ Forall (fun c => is_js_whitespace c = true) blank.
Proof.
  induction s as [|x s (blank & Hs & Hblank)]; [by exists []|]. simpl.
  destruct (is_js_whitespace x) eqn:Hx.
  - exists (x :: blank). split; [by rewrite Hs at 1 | by constructor].
  - by exists [].
Qed.

Lemma trim_start_blank (s : jsstring) :
  trim_start s = [] <-> Forall (fun c => is_js_whitespace c = true) s.
Proof.
  split.
  - intros Hnil. destruct (trim_start_split s) as (blank & Hs & Hblank).
    rewrite Hnil, app_nil_r in Hs. by subst.
  - induction 1 as [|x s Hx _ IH]; [done|]. simpl. by rewrite Hx.
Qed.

(** [trim] gives the empty string exactly on strings of white space. *)
Lemma trim_blank (s : jsstring) :
  trim s = [] <-> Forall (fun c => is_js_whitespace c = true) s.
Proof.
  unfold trim. split.
  - intros Hnil. apply (f_equal (@rev Z)) in Hnil. rewrite rev_involutive in Hnil.
    simpl in Hnil. apply trim_start_blank in Hnil.
    destruct (trim_start s) as [|c r] eqn:Hs; [by apply trim_start_blank|].
    apply trim_start_head in Hs.
    assert (Hc : c ∈ rev (c :: r))
      by (apply list_elem_of_In, (proj1 (in_rev (c :: r) c)); by left).
    rewrite Forall_forall in Hnil. specialize (Hnil c Hc). congruence.
  - intros Hblank. apply trim_start_blank in Hblank. by rewrite Hblank.
Qed.

(** A trimmed string neither starts nor ends with white space. *)
Lemma trim_ends (s : jsstring) (c : Z) :
  head (trim s) = Some c \/ last (trim s) = Some c -> is_js_whitespace c = false.
Proof.
  unfold trim.
  destruct (trim_start_split (rev (trim_start s))) as (blank & Hsplit & _).
  destruct (trim_start (rev (trim_start s))) as [|y r] eqn:Hback; [by intros [|]|].
  pose proof (trim_start_head _ _ _ Hback) as Hy.
  intros [Hhead|Hlast].
  - apply (f_equal (@rev Z)) in Hsplit.
    rewrite rev_involutive, rev_app_distr in Hsplit.
    destruct (rev (y :: r)) as [|z t] eqn:Hrev.
    { apply (f_equal (@length Z)) in Hrev. rewrite length_rev in Hrev. done. }
    simpl in Hhead. injection Hhead as ->.
    destruct (trim_start s) as [|z' t'] eqn:Hs; [done|].
    injection Hsplit as -> _. by apply trim_start_head in Hs.
  - change (rev (y :: r)) with (rev r ++ [y]) in Hlast.
    rewrite last_snoc in Hlast. by injection Hlast as <-.
Qed.

(** X14: A feed added through the form has the trimmed name and URL of the form,
    both non-empty and free of white space at either end; a category field
    that is empty or blank gives the category [General]; the success message
    names the feed, the dialog is closed and the form is emptied. *)
Theorem form_stores_trimmed_fields
    (URL_parses : jsstring -> bool) (now date : Z) (c : Customizer) :
  let name := trim (feed_name_value (dom c)) in
  let url := trim (feed_url_value (dom c)) in
  let category := trim (feed_category_value (dom c)) in
  let c' := handleAddFeed URL_parses now date c in
  name <> [] -> url <> [] -> URL_parses url = true ->
  customFeeds c'
  = customFeeds c
    ++ [Feed.mk now name url (if is_empty category then js "General" else category)
                (toISOString date) true]
  /\ (forall u, head name = Some u \/ last name = Some u \/ head url = Some u
                \/ last url = Some u -> is_js_whitespace u = false)
  /\ (Forall (fun u => is_js_whitespace u = true) (feed_category_value (dom c)) ->
      is_empty category = true)
  /\ alerts (env c') = alerts (env c) ++ [msg_added name]
  /\ add_feed_modal_display (dom c') = js "none"
  /\ feed_name_value (dom c') = [] /\ feed_url_value (dom c') = []
  /\ feed_category_value (dom c') = [].
Proof.
  intros name url category c' Hname Hurl Hparse.
  assert (Hrun : c' = updateStats (reset_add_feed_form (closeModal_add_feed
                   (alert_in (msg_added name)
                      (snd (addCustomFeed now date
                              (FeedData.mk name url (Some category)) c)))))).
  { subst c'. unfold handleAddFeed, new_URL. fold name url category.
    apply is_empty_false in Hname, Hurl. by rewrite Hname, Hurl, Hparse. }
  rewrite Hrun. split_and!; try reflexivity.
  - simpl. do 3 f_equal. by destruct category.
  - intros u [H|[H|[H|H]]]; [apply (trim_ends (feed_name_value (dom c)))
                             | apply (trim_ends (feed_name_value (dom c)))
                             | apply (trim_ends (feed_url_value (dom c)))
                             | apply (trim_ends (feed_url_value (dom c)))]; tauto.
  - intros Hblank. apply is_empty_true. by apply trim_blank.
Qed.

Lemma form_stores_trimmed_fields_witness :
  customFeeds (handleAddFeed accepts_example 1000 1000 filled_form)
  = [Feed.mk 1000 (js "Senior Living Magazine") (js "https://example.com/rss")
             (js "Lifestyle") (toISOString 1000) true].
Proof.
  destruct (form_stores_trimmed_fields accepts_example 1000 1000 filled_form)
    as (Hfeeds & _);
    [vm_compute; discriminate | vm_compute; discriminate | vm_compute; reflexivity |].
  rewrite Hfeeds. vm_compute. reflexivity.
Defined.

(** ** Clearing the deleted articles *)

(** X15: Declining the confirmation leaves the page as it is.  After a confirmed
    clear the page that comes up from the reload has no deleted article at
    all, whatever their number was, shows 0 on their counter, and has the
    feeds it had. *)
Theorem clear_all_deleted (selector_parses : jsstring -> bool) (c : Customizer) :
  clearAllDeleted selector_parses false c = Some (Normal c)
  /\ (feeds_persisted c -> Forall well_formed_feed (customFeeds c) ->
      exists c',
        clearAllDeleted selector_parses true c = Some (Normal c')
        /\ deletedArticles c' = []
        /\ (forall url, isArticleDeleted url c' = false)
        /\ deleted_count (dom c') = Some (js "0")
        /\ getItem key_deletedArticles (env c') = Some (js "[]")
        /\ customFeeds c' = customFeeds c).
Proof.
  split; [reflexivity|]. intros Hfeeds Hwf. unfold clearAllDeleted.
  set (cleared := saveDeletedArticles (with_deletedArticles [] c)).
  assert (Hp : persisted cleared).
  { split; [|apply getItem_setItem]. unfold feeds_persisted. subst cleared. simpl.
    rewrite getItem_setItem_other by (apply not_eq_sym, keys_differ). exact Hfeeds. }
  assert (Hw : well_formed cleared) by (split; [exact Hwf | constructor]).
  assert (Hselectors : selectors_accepted selector_parses (deletedArticles cleared))
    by constructor.
  destruct (reload_restores selector_parses cleared Hp Hw Hselectors)
    as (c' & Hreload & Hfeeds' & Hurls' & Henv' & [_ Hcount] & _).
  exists c'. split_and!; try done.
  - intros url. unfold isArticleDeleted. by rewrite Hurls'.
  - by rewrite Hcount, Hurls'.
  - rewrite Henv'. apply getItem_setItem.
Qed.

Lemma sample_session_state :
  persisted (session sample_actions stored_empty_page)
  /\ well_formed (session sample_actions stored_empty_page).
Proof.
  apply (session_invariant (fun c => persisted c /\ well_formed c) well_formed_action).
  - intros c a [Hp Hw] Ha. split;
      [by apply perform_persisted | by apply perform_well_formed].
  - split; [exact stored_empty_page_persisted | exact stored_empty_page_well_formed].
  - exact sample_actions_well_formed.
Qed.

Lemma clear_all_deleted_witness :
  exists c',
    clearAllDeleted accepts_plain_selector true
      (session sample_actions stored_empty_page) = Some (Normal c')
    /\ deletedArticles c' = [].
Proof.
  destruct (clear_all_deleted accepts_plain_selector
              (session sample_actions stored_empty_page)) as [_ Hclear].
  destruct sample_session_state as [[Hfeeds _] [Hwf _]].
  destruct (Hclear Hfeeds Hwf) as (c' & Hsome & Hnone & _).
  exists c'. split; [exact Hsome | exact Hnone].
Defined.

(** ** The markup of the list dialogs *)

Lemma angle_brackets_app (a b : jsstring) :
  angle_brackets (a ++ b) = angle_brackets a ++ angle_brackets b.
Proof. apply List.filter_app. Qed.

Lemma angle_brackets_concat {A : Type} (f : A -> jsstring) (l : list A) :
  angle_brackets (concat (List.map f l))
  = concat (List.map (fun a => angle_brackets (f a)) l).
Proof.
  induction l as [|a l IH]; [done|]. simpl. by rewrite angle_brackets_app, IH.
Qed.

Lemma escape_unit_cases (c : Z) :
  (c <> 60 /\ c <> 62 /\ c <> 160 /\ c <> 38 /\ escape_unit c = [c])
  \/ (c = 38 /\ escape_unit c = js "&amp;") \/ (c = 60 /\ escape_unit c = js "&lt;")
  \/ (c = 62 /\ escape_unit c = js "&gt;") \/ (c = 160 /\ escape_unit c = js "&nbsp;").
Proof.
  unfold escape_unit.
  destruct (Z.eqb_spec c 38) as [->|?]; [right; left; done|].
  destruct (Z.eqb_spec c 60) as [->|?]; [right; right; left; done|].
  destruct (Z.eqb_spec c 62) as [->|?]; [right; right; right; left; done|].
  destruct (Z.eqb_spec c 160) as [->|?]; [right; right; right; right; done|].
  left. done.
Qed.

Lemma angle_brackets_escapeHtml (text : jsstring) :
  angle_brackets (escapeHtml text) = [].
Proof.
  unfold escapeHtml.
  induction text as [|c r IH]; [done|]. simpl. rewrite angle_brackets_app, IH.
  destruct (escape_unit_cases c)
    as [(H1 & H2 & _ & _ & ->)|[[_ ->]|[[_ ->]|[[_ ->]|[_ ->]]]]]; try reflexivity.
  unfold angle_brackets. simpl.
  destruct (Z.eqb_spec c 60); [done|]. by destruct (Z.eqb_spec c 62).
Qed.

(** X16: [escapeHtml] never lets an angle bracket or a no-break space through,
    and it leaves alone a text that has none of the four characters it
    replaces. *)
Theorem escapeHtml_output (text : jsstring) :
  angle_brackets (escapeHtml text) = []
  /\ (160 ∉ escapeHtml text)
  /\ (Forall (fun c => c <> 38 /\ c <> 60 /\ c <> 62 /\ c <> 160) text ->
      escapeHtml text = text).
Proof.
  split_and!; [apply angle_brackets_escapeHtml | unfold escapeHtml..].
  - induction text as [|c r IH]; [by intros ?%elem_of_nil|]. simpl.
    intros [Hin|Hin]%elem_of_app; [|done].
    destruct (escape_unit_cases c)
      as [(_ & _ & H3 & _ & Heq)|[[_ Heq]|[[_ Heq]|[[_ Heq]|[_ Heq]]]]];
      rewrite Heq in Hin.
    + by apply list_elem_of_singleton in Hin.
    + revert Hin. vm_compute. intros Hin.
      repeat (apply elem_of_cons in Hin as [Hin|Hin]; [discriminate|]).
      by apply elem_of_nil in Hin.
    + revert Hin. vm_compute. intros Hin.
      repeat (apply elem_of_cons in Hin as [Hin|Hin]; [discriminate|]).
      by apply elem_of_nil in Hin.
    + revert Hin. vm_compute. intros Hin.
      repeat (apply elem_of_cons in Hin as [Hin|Hin]; [discriminate|]).
      by apply elem_of_nil in Hin.
    + revert Hin. vm_compute. intros Hin.
      repeat (apply elem_of_cons in Hin as [Hin|Hin]; [discriminate|]).
      by apply elem_of_nil in Hin.
  - induction 1 as [|c r (H38 & H60 & H62 & H160) _ IH]; [done|]. simpl.
    rewrite IH. unfold escape_unit.
    destruct (Z.eqb_spec c 38); [done|]. destruct (Z.eqb_spec c 60); [done|].
    destruct (Z.eqb_spec c 62); [done|]. by destruct (Z.eqb_spec c 160).
Qed.

Lemma escapeHtml_output_witness : escapeHtml (js "Senior Living") = js "Senior Living".
Proof.
  destruct (escapeHtml_output (js "Senior Living")) as (_ & _ & Hsame).
  apply Hsame. repeat constructor; vm_compute; discriminate.
Defined.

Lemma angle_brackets_digits (ds : jsstring) :
  Forall (fun c => is_digit c = true) ds -> angle_brackets ds = [].
Proof.
  induction 1 as [|c ds Hc _ IH]; [done|]. apply is_digit_true in Hc.
  unfold angle_brackets in *. simpl. rewrite IH.
  destruct (Z.eqb_spec c 60); [lia|]. destruct (Z.eqb_spec c 62); [lia|]. done.
Qed.

Lemma angle_brackets_Number_toString (n : Z) : angle_brackets (Number_toString n) = [].
Proof.
  destruct (Number_toString_shape n) as (d0 & ds & -> & Hdigits & _ & _).
  rewrite angle_brackets_app, (angle_brackets_digits _ Hdigits).
  by destruct (n <? 0).
Qed.

Lemma angle_brackets_feed_item (feed : Feed.t) :
  angle_brackets (feed_item_html feed) = concat (repeat (js "<>") 14).
Proof.
  unfold feed_item_html, template_line.
  rewrite !angle_brackets_app, angle_brackets_Number_toString.
  rewrite !angle_brackets_escapeHtml. reflexivity.
Qed.

Lemma angle_brackets_deleted_item (url : jsstring) :
  angle_brackets url = [] ->
  angle_brackets (deleted_item_html url) = concat (repeat (js "<>") 10).
Proof.
  intros Hurl. unfold deleted_item_html, template_line.
  rewrite !angle_brackets_app, Hurl.
  rewrite !angle_brackets_escapeHtml. reflexivity.
Qed.

Lemma concat_repeat_brackets {A : Type} (l : list A) (n : nat) :
  concat (List.map (fun _ : A => concat (repeat (js "<>") n)) l)
  = concat (repeat (js "<>") (n * length l)).
Proof.
  induction l as [|a l IH]; simpl; [by rewrite Nat.mul_0_r|].
  rewrite IH, Nat.mul_succ_r, Nat.add_comm, repeat_app, concat_app. done.
Qed.

(** X17: The tag structure of the list dialogs does not depend on the data shown:
    the manage list has exactly 14 tags per feed, whatever the names, URLs
    and categories contain, and the deleted-articles list 10 tags per URL as
    long as no URL holds an angle bracket.  A confirmed removal shows the
    list of the feeds that remain and opens the dialog; a declined one
    changes nothing. *)
Theorem list_dialogs_markup (c : Customizer) (d : Dialogs) :
  (customFeeds c <> [] ->
   angle_brackets (feeds_list_html (openManageFeedsModal c d))
   = concat (repeat (js "<>") (14 * length (customFeeds c))))
  /\ (deletedArticles c <> [] ->
      Forall (fun url => angle_brackets url = []) (deletedArticles c) ->
      angle_brackets (deleted_list_html (openDeletedArticlesModal c d))
      = concat (repeat (js "<>") (10 * length (deletedArticles c))))
  /\ (forall feedId,
        removeFeedUI false feedId c d = (c, d)
        /\ feeds_list_html (snd (removeFeedUI true feedId c d))
           = feeds_list_markup
               (filter (fun f => Feed.id f <> feedId) (customFeeds c))
        /\ manage_feeds_display (snd (removeFeedUI true feedId c d)) = js "block"
        /\ customFeeds (fst (removeFeedUI true feedId c d))
           = filter (fun f => Feed.id f <> feedId) (customFeeds c)).
Proof.
  split_and!.
  - intros Hne.
    change (feeds_list_html (openManageFeedsModal c d))
      with (feeds_list_markup (customFeeds c)).
    unfold feeds_list_markup.
    destruct (customFeeds c) as [|f l] eqn:Hfeeds; [done|].
    rewrite angle_brackets_concat.
    rewrite (map_ext _ (fun _ => concat (repeat (js "<>") 14)))
      by (intros feed; apply angle_brackets_feed_item).
    apply concat_repeat_brackets.
  - intros Hne Hurls.
    change (deleted_list_html (openDeletedArticlesModal c d))
      with (deleted_list_markup (deletedArticles c)).
    unfold deleted_list_markup.
    destruct (deletedArticles c) as [|u l] eqn:Hdeleted; [done|].
    rewrite angle_brackets_concat.
    rewrite (map_ext_in _ (fun _ => concat (repeat (js "<>") 10))).
    + apply concat_repeat_brackets.
    + intros url Hurl. apply angle_brackets_deleted_item.
      rewrite Forall_forall in Hurls. by apply Hurls, list_elem_of_In.
  - intros feedId. split_and!; reflexivity.
Qed.

Lemma list_dialogs_markup_witness :
  angle_brackets (feeds_list_html (openManageFeedsModal twins
                                     (mkDialogs [] [] [] [])))
  = concat (repeat (js "<>") 42)
  /\ angle_brackets (deleted_list_html (openDeletedArticlesModal one_deleted
                                          (mkDialogs [] [] [] [])))
     = concat (repeat (js "<>") 10).
Proof.
  destruct (list_dialogs_markup twins (mkDialogs [] [] [] [])) as (Hfeeds & _).
  destruct (list_dialogs_markup one_deleted (mkDialogs [] [] [] [])) as (_ & Hurls & _).
  split.
  - apply Hfeeds. discriminate.
  - apply Hurls; [discriminate|]. repeat constructor.
Defined.
